(** * Minswap SDK adapters over the Maestro indexer

    A shallow embedding of [src/types/adapter.ts] (the paginated
    [MaestroAdaptor]), [src/maestro-adapter.ts] (the unpaginated
    [MaestroAdaptor]) and [src/utils/address-utils.internal.ts].

    Promises are modelled by a state-and-exception monad over a [World] that
    holds the indexer's chain of replies and the log of requests sent so far.
    JavaScript [number]s that count pages and decimals are integers ([Z]);
    [bigint] reserves are [Z]; [Big] values are exact rationals with big.js'
    rounding written out. *)

From Stdlib Require Import ZArith QArith Qround Qabs Qpower.
From Stdlib Require Import List String Ascii Bool Lia Lqa.
From Equations Require Import Equations.
Import ListNotations.

Local Open Scope string_scope.
Local Open Scope Z_scope.

(** ** Exceptions and results *)

(** What a rejected promise or a [throw] carries. *)
Inductive JsError : Type :=
| TypeError (msg : string)           (* method call on [undefined] *)
| InvariantFailed (msg : string)     (* @minswap/tiny-invariant *)
| BigDivisionByZero                  (* "[big.js] Division by zero" *)
| BigInvalidExponent                 (* "[big.js] Invalid exponent" *)
| UpstreamError (payload : string)   (* the indexer client rejected *)
| LibraryError (payload : string).   (* thrown by an external library *)

Inductive result (A : Type) : Type :=
| Ok (a : A)
| Err (e : JsError).
Arguments Ok {A} a.
Arguments Err {A} e.

(** ** Values exchanged with the indexer *)

(** [string | undefined | null], the type of [next_cursor] and of the
    local [cursor] of the pagination loops. *)
Inductive Cursor : Type :=
| CUndefined
| CNull
| CString (s : string).

(** JavaScript truthiness of a cursor, as tested by [if (cursor)]. *)
Definition truthy (c : Cursor) : bool :=
  match c with
  | CString s => negb (s =? EmptyString)%string
  | _ => false
  end.

Inductive Order : Type := Asc | Desc.

(** The query object handed to the paginated endpoints: the callers build
    [{ count, order }]; the loops add [cursor]. *)
Record QueryParams : Type := mkQuery {
  q_count : Z;
  q_order : Order;
  q_cursor : Cursor
}.

(** [queryParam.cursor = cursor] *)
Definition set_cursor (q : QueryParams) (c : Cursor) : QueryParams :=
  {| q_count := q_count q; q_order := q_order q; q_cursor := c |}.

Record AssetTx : Type := mkAssetTx {
  tx_hash : string;
  slot : Z;
  timestamp : string
}.

Record PaginatedAssetTx : Type := mkPaginatedAssetTx {
  atx_data : list AssetTx;
  atx_next_cursor : Cursor
}.

Record Asset : Type := mkAsset {
  unit_ : string;
  amount : Z
}.

Record DatumOption : Type := mkDatum {
  hash : string
}.

Record Utxo : Type := mkUtxo {
  utxo_address : string;
  utxo_tx_hash : string;
  utxo_index : Z;
  utxo_assets : list Asset;
  utxo_datum : option DatumOption
}.

Record PaginatedUtxoWithSlot : Type := mkPaginatedUtxo {
  utxo_data : list Utxo;
  utxo_next_cursor : Cursor
}.

Record TxInfo : Type := mkTxInfo {
  outputs : list Utxo
}.

Record AssetInfo : Type := mkAssetInfo {
  (* [token_registry_metadata?.decimals]: absent metadata or absent field *)
  registry_decimals : option Z
}.

(** A variable typed [T] that may hold [{} as T]: the pagination loops
    start from the empty object. *)
Inductive JsObj (T : Type) : Type :=
| EmptyObject
| Obj (t : T).
Arguments EmptyObject {T}.
Arguments Obj {T} t.

(** ** The world: the indexer's replies and the requests sent *)

Inductive ApiCall : Type :=
| CallAssetTxs (asset : string) (q : QueryParams)
| CallUtxosByPaymentCred (cred : string) (q : QueryParams)
| CallTxInfo (txHash : string)
| CallAssetInfo (asset : string).

(** The indexer as the client sees it, a chain of replies: [reply_e n] is
    what endpoint [e] answers to a call made after [n] earlier calls (to
    any endpoint), a response or a rejection. The adapters are
    deterministic, so every run against a real indexer is the run against
    the chain of replies that indexer gave. *)
Record Upstream : Type := mkUpstream {
  reply_assetTxs : nat -> result PaginatedAssetTx;
  reply_utxosByPaymentCred : nat -> result PaginatedUtxoWithSlot;
  reply_txInfo : nat -> result TxInfo;
  reply_assetInfo : nat -> result AssetInfo
}.

Record World : Type := mkWorld {
  upstream : Upstream;
  calls : list ApiCall    (* oldest first *)
}.

Definition sent (w : World) (c : ApiCall) : World :=
  {| upstream := upstream w; calls := calls w ++ [c] |}.

(** ** The promise monad *)

Definition M (A : Type) : Type := World -> result A * World.

Definition ret {A} (a : A) : M A := fun w => (Ok a, w).
Definition throw {A} (e : JsError) : M A := fun w => (Err e, w).
Definition bind {A B} (m : M A) (k : A -> M B) : M B :=
  fun w => match m w with
           | (Ok a, w') => k a w'
           | (Err e, w') => (Err e, w')
           end.
(** [try { m } catch (err) { h err }] *)
Definition try_catch {A} (m : M A) (h : JsError -> M A) : M A :=
  fun w => match m w with
           | (Ok a, w') => (Ok a, w')
           | (Err e, w') => h e w'
           end.
Definition lift {A} (r : result A) : M A := fun w => (r, w).

Declare Scope promise_scope.
Delimit Scope promise_scope with promise.
Notation "'let*' x ':=' m 'in' k" := (bind m (fun x => k))
  (at level 10, x name, m at level 100, k at level 200) : promise_scope.
Notation "'do' m 'then' k" := (bind m (fun _ => k))
  (at level 10, m at level 100, k at level 200) : promise_scope.
Local Open Scope promise_scope.

Module Api.
(** A call to one endpoint: the reply is the next one of the chain and the
    request is appended to the log. *)
Definition call {R : Type} (reply : Upstream -> nat -> result R)
    (request : ApiCall) : M R :=
  fun w => (reply (upstream w) (List.length (calls w)), sent w request).

(** [this.api.assets.assetTxs(param, queryParam)] *)
Definition assetTxs (param : string) (q : QueryParams) : M PaginatedAssetTx :=
  call reply_assetTxs (CallAssetTxs param q).

(** [this.api.addresses.utxosByPaymentCred(param, queryParam)] *)
Definition utxosByPaymentCred (param : string) (q : QueryParams)
  : M PaginatedUtxoWithSlot :=
  call reply_utxosByPaymentCred (CallUtxosByPaymentCred param q).

(** [this.api.transactions.txInfo(txHash)] *)
Definition txInfo (txHash : string) : M TxInfo :=
  call reply_txInfo (CallTxInfo txHash).

(** [this.api.assets.assetInfo(asset)] *)
Definition assetInfo (asset : string) : M AssetInfo :=
  call reply_assetInfo (CallAssetInfo asset).
End Api.

(** ** The pagination loop of [src/types/adapter.ts]

    [getPaginatedUtxosByPaymentCred] and [getPaginatedAssetTx] have the same
    body up to the endpoint called and the type of its response, so the
    loop is written once over both. *)

(** [cursor === null] *)
Definition is_null (c : Cursor) : bool :=
  match c with CNull => true | _ => false end.

(** [if (cursor) { queryParam.cursor = cursor; }] *)
Definition assign_cursor (queryParam : QueryParams) (cursor : Cursor)
  : QueryParams :=
  if truthy cursor then set_cursor queryParam cursor else queryParam.

Section PaginationLoop.
Context {R : Type}.
Variable next_cursor : R -> Cursor.
Variable endpoint : string -> QueryParams -> M R.
Variable param : string.
Variable page : Z.

(** [while (curr < page) { ... } return res;] from the loop state
    [(curr, res, cursor, queryParam)]; the measure is [page - curr]. The
    assignment to [queryParam.cursor] precedes the test for [null] in the
    source; a [null] cursor is not assigned, so the [break] leaves
    [queryParam] as it was. *)
Equations? paginate_loop (curr : Z) (res : JsObj R) (cursor : Cursor)
    (queryParam : QueryParams) (w : World) : result (JsObj R) * World
    by wf (Z.to_nat (page - curr)) lt :=
  paginate_loop curr res cursor queryParam w with Z_lt_dec curr page := {
    | right _ => (Ok res, w)
    | left _ with is_null cursor := {
      | true => (Ok res, w)                                   (* break *)
      | false with endpoint param (assign_cursor queryParam cursor) w := {
        | (Err e, w') => (Err e, w')
        | (Ok r, w') =>
            paginate_loop (curr + 1) (Obj r) (next_cursor r)
              (assign_cursor queryParam cursor) w' } } }.
Proof. lia. Qed.

(** [let curr = 0; let res = {}; let cursor = <empty string>; while ...] *)
Definition paginate (queryParam : QueryParams) : M (JsObj R) :=
  paginate_loop 0 EmptyObject (CString EmptyString) queryParam.
End PaginationLoop.

(** ** big.js, as far as the adapters use it

    A [Big] is an exact decimal; it is kept as the rational it denotes.
    [times] is exact, [div] rounds the quotient to [DP] decimal places with
    rounding mode [RM = 1] (half away from zero) and throws on a zero
    divisor, [pow] accepts integer exponents of magnitude at most
    [MAX_POWER] and divides [1] by the power when the exponent is
    negative. [DP], [RM] and [MAX_POWER] are the library's defaults; the
    adapters do not change them. *)
Module Big.
Definition t : Type := Q.

Definition DP : Z := 20.
Definition MAX_POWER : Z := 1000000.

(** The number of units of [10^-DP] in one. *)
Definition scale : Z := 10 ^ DP.

(** [Big(n.toString())] for a bigint [n], and [Big(10)]. *)
Definition of_Z (n : Z) : t := inject_Z n.

(** Rounding to [DP] decimal places, half away from zero: the result is
    [units / 10^DP] for the integer [units] nearest to [x * 10^DP]. *)
Definition units (x : Q) : Z :=
  Z.sgn (Qnum x) * Qfloor (Qabs x * inject_Z scale + (1 # 2))%Q.

Definition round (x : Q) : t := (inject_Z (units x) / inject_Z scale)%Q.

Definition is_zero (x : t) : bool := Qeq_bool x 0%Q.

(** [x.div(y)] *)
Definition div (x y : t) : result t :=
  if is_zero y then Err BigDivisionByZero else Ok (round (x / y)%Q).

(** [x.pow(n)] *)
Definition pow (x : t) (n : Z) : result t :=
  if (n <? - MAX_POWER)%Z || (MAX_POWER <? n)%Z then Err BigInvalidExponent
  else if (n <? 0)%Z then div (of_Z 1) (Qpower x (- n))
  else Ok (Qpower x n).
End Big.

(** ** [isValidHex]: the test of [/^[0-9A-Fa-f]+$/] *)

(** Membership of the character range [lo-hi] of a class. *)
Definition in_range (lo hi c : ascii) : bool :=
  (nat_of_ascii lo <=? nat_of_ascii c)%nat
  && (nat_of_ascii c <=? nat_of_ascii hi)%nat.

(** The class [[0-9A-Fa-f]]. *)
Definition hex_class (c : ascii) : bool :=
  in_range "0" "9" c || in_range "A" "F" c || in_range "a" "f" c.

(** [cls*] anchored at the end of the input. *)
Fixpoint match_star_to_end (cls : ascii -> bool) (s : string) : bool :=
  match s with
  | EmptyString => true
  | String c rest => cls c && match_star_to_end cls rest
  end.

(** [^cls+$]: one character of the class, then [cls*] up to the end. The
    regular expression has no [m] flag, so [$] is the end of the input. *)
Definition match_plus_anchored (cls : ascii -> bool) (s : string) : bool :=
  match s with
  | EmptyString => false
  | String c rest => cls c && match_star_to_end cls rest
  end.

Definition isValidHex (hexString : string) : bool :=
  match_plus_anchored hex_class hexString.

(** ** Pool values *)

Record ValueItem : Type := mkValueItem {
  v_unit : string;
  v_quantity : Z      (* the decimal string of the amount, as its integer *)
}.
Definition Value : Type := list ValueItem.

Record TxIn : Type := mkTxIn {
  txIn_txHash : string;
  txIn_index : Z
}.

(** Modelled from the spec: class [PoolState] of [types/pool], which is not
    among the sources. The spec describes it as a snapshot of address,
    output reference, asset reserves and datum hash, taken verbatim from the
    indexer's output; the adapters read [assetA], [assetB], [reserveA] and
    [reserveB] from it. *)
Record PoolState : Type := mkPoolState {
  address : string;
  txIn : TxIn;
  value : Value;
  datumHash : string;
  assetA : string;
  assetB : string;
  reserveA : Z;
  reserveB : Z
}.

(** [new Date(s)] *)
Inductive JsDate : Type := Date_new (s : string).

(** What the adapters import and the sources do not contain: the
    serialization library of lucid-cardano ([C]), the constants of
    [constants], and the pool checks of [types/pool.internal] and
    [types/pool]. Each is a parameter; a function that can throw returns a
    [result]. *)
Record Externals : Type := mkExternals {
  POOL_SCRIPT_HASH : string;
  POOL_NFT_POLICY_ID : string;
  (* lucid-cardano *)
  Address : Type;
  SpecificAddress : Type;
  StakeCredential : Type;
  ScriptHash : Type;
  Address_from_bech32 : string -> result Address;
  BaseAddress_from_address : Address -> option SpecificAddress;
  EnterpriseAddress_from_address : Address -> option SpecificAddress;
  PointerAddress_from_address : Address -> option SpecificAddress;
  RewardAddress_from_address : Address -> option SpecificAddress;
  payment_cred : SpecificAddress -> StakeCredential;
  to_scripthash : StakeCredential -> option ScriptHash;
  ScriptHash_to_bech32 : ScriptHash -> string -> result string;
  ScriptHash_from_bech32 : string -> result ScriptHash;
  StakeCredential_from_scripthash : ScriptHash -> StakeCredential;
  StakeCredential_to_hex : StakeCredential -> string;
  (* types/pool.internal *)
  checkValidPoolOutput : string -> Value -> option string -> result unit;
  isValidPoolOutput : string -> Value -> option string -> bool;
  (* the constructor of PoolState: the two assets and reserves it derives
     from the value, or the error it throws *)
  PoolState_assets : Value -> result (string * Z * (string * Z))
}.

(** [a || b] on objects-or-undefined. *)
Definition or_else {A} (a b : option A) : option A :=
  match a with Some _ => a | None => b end.

(** [invariant(condition, message)] of tiny-invariant on a string. *)
Definition invariant (condition : string) (message : string) : result unit :=
  if (condition =? EmptyString)%string then Err (InvariantFailed message) else Ok tt.

Definition result_bind {A B} (r : result A) (k : A -> result B) : result B :=
  match r with Ok a => k a | Err e => Err e end.

(** [xs.find(p)] for a predicate that can throw. *)
Fixpoint find_throwing {A} (p : A -> result bool) (xs : list A)
  : result (option A) :=
  match xs with
  | [] => Ok None
  | x :: rest =>
      result_bind (p x) (fun b =>
        if b then Ok (Some x) else find_throwing p rest)
  end.

(** [xs.map(f)] for a callback that can throw. *)
Fixpoint map_throwing {A B} (f : A -> result B) (xs : list A)
  : result (list B) :=
  match xs with
  | [] => Ok []
  | x :: rest =>
      result_bind (f x) (fun y =>
        result_bind (map_throwing f rest) (fun ys => Ok (y :: ys)))
  end.

Section Adapters.
Variable X : Externals.

(** *** [src/utils/address-utils.internal.ts] *)

Definition getScriptHashFromAddress (addr : string) : result (option string) :=
  result_bind (Address_from_bech32 X addr) (fun cslAddr =>
    let specificAddr :=
      or_else (BaseAddress_from_address X cslAddr)
        (or_else (EnterpriseAddress_from_address X cslAddr)
           (or_else (PointerAddress_from_address X cslAddr)
              (RewardAddress_from_address X cslAddr))) in
    match specificAddr with
    | None => Ok None
    | Some a =>
        match to_scripthash X (payment_cred X a) with
        | None => Ok None
        | Some h =>
            result_bind (ScriptHash_to_bech32 X h "script") (fun s =>
              Ok (Some s))
        end
    end).

Definition getPaymentCredFromScriptHash (scriptHash : string) : result string :=
  result_bind (ScriptHash_from_bech32 X scriptHash) (fun cslScriptHash =>
    Ok (StakeCredential_to_hex X
          (StakeCredential_from_scripthash X cslScriptHash))).

(** [new PoolState(address, txIn, value, datumHash)] *)
Definition PoolState_new (address : string) (txIn : TxIn) (value : Value)
    (datumHash : string) : result PoolState :=
  result_bind (PoolState_assets X value) (fun '(a, ra, (b, rb)) =>
    Ok {| address := address; txIn := txIn; value := value;
          datumHash := datumHash;
          assetA := a; assetB := b; reserveA := ra; reserveB := rb |}).

(** [assets.map((asset) => ({ unit, quantity: asset.amount.toString() }))] *)
Definition toValue (assets : list Asset) : Value :=
  map (fun asset => {| v_unit := unit_ asset; v_quantity := amount asset |})
      assets.

(** [utxo.datum?.hash] as a string or [undefined] *)
Definition datum_hash (u : Utxo) : option string :=
  match utxo_datum u with Some d => Some (hash d) | None => None end.

(** [h || <empty string>] on a string or [undefined] *)
Definition or_empty (h : option string) : string :=
  match h with Some s => s | None => EmptyString end.

(** [h || null] on a string or [undefined] *)
Definition or_null (h : option string) : option string :=
  match h with
  | Some s => if (s =? EmptyString)%string then None else Some s
  | None => None
  end.

(** [(o) => getScriptHashFromAddress(o.address) === POOL_SCRIPT_HASH] *)
Definition is_pool_output (o : Utxo) : result bool :=
  result_bind (getScriptHashFromAddress (utxo_address o)) (fun h =>
    Ok match h with
       | Some s => (s =? POOL_SCRIPT_HASH X)%string
       | None => false
       end).

End Adapters.

(** ** [src/maestro-adapter.ts]

    [getPoolInTx], [getAssetDecimals] and [getPoolPrice] of
    [src/types/adapter.ts] have the same bodies (the response payload is one
    [.data] deeper here, and the value is built by [toValue] there). *)
Module MaestroAdapter.

Record PoolHistory : Type := mkPoolHistory {
  txHash : string;
  txIndex : Z;
  blockHeight : Z;
  time : string
}.

Definition getAssetDecimals (asset : string) : M Z :=
  if (asset =? "lovelace")%string then ret 6
  else
    try_catch
      (let* assetAInfo := Api.assetInfo asset in
       ret (match registry_decimals assetAInfo with
            | Some d => d
            | None => 0
            end))
      (fun err =>
         if isValidHex asset && (String.length asset <=? 122)%nat then ret 0
         else throw err).

Definition getPoolPrice (pool : PoolState) (decimalsA decimalsB : option Z)
  : M (Big.t * Big.t) :=
  let* decimalsA :=
    match decimalsA with
    | None => getAssetDecimals (assetA pool)
    | Some d => ret d
    end in
  let* decimalsB :=
    match decimalsB with
    | None => getAssetDecimals (assetB pool)
    | Some d => ret d
    end in
  let* tenA := lift (Big.pow (Big.of_Z 10) decimalsA) in
  let* adjustedReserveA := lift (Big.div (Big.of_Z (reserveA pool)) tenA) in
  let* tenB := lift (Big.pow (Big.of_Z 10) decimalsB) in
  let* adjustedReserveB := lift (Big.div (Big.of_Z (reserveB pool)) tenB) in
  let* priceAB := lift (Big.div adjustedReserveA adjustedReserveB) in
  let* priceBA := lift (Big.div adjustedReserveB adjustedReserveA) in
  ret (priceAB, priceBA).

Section WithExternals.
Variable X : Externals.

Definition getPoolHistory (id : string) (count : option Z)
    (order : option Order) : M (list PoolHistory) :=
  let count := match count with Some c => c | None => 100 end in
  let order := match order with Some o => o | None => Desc end in
  let nft := (POOL_NFT_POLICY_ID X ++ id)%string in
  let* nftTxs :=
    Api.assetTxs nft
      {| q_count := count; q_order := order; q_cursor := CUndefined |} in
  ret (map (fun tx =>
              {| txHash := tx_hash tx;
                 txIndex := 0;
                 blockHeight := 9913642;
                 time := timestamp tx |})
           (atx_data nftTxs)).

Definition getPoolInTx (txHash : string) : M (option PoolState) :=
  let* poolTx := Api.txInfo txHash in
  let* poolUtxo := lift (find_throwing (is_pool_output X) (outputs poolTx)) in
  match poolUtxo with
  | None => ret None
  | Some poolUtxo =>
      let poolValue := toValue (utxo_assets poolUtxo) in
      let dataHash := or_empty (datum_hash poolUtxo) in
      do lift (checkValidPoolOutput X (utxo_address poolUtxo) poolValue
                 (Some dataHash)) then
      do lift (invariant dataHash
                 ("expect pool to have datum hash, got " ++ dataHash)) then
      let* pool :=
        lift (PoolState_new X (utxo_address poolUtxo)
                {| txIn_txHash := txHash; txIn_index := utxo_index poolUtxo |}
                poolValue dataHash) in
      ret (Some pool)
  end.

Definition getPoolById (id : string) : M (option PoolState) :=
  let nft := (POOL_NFT_POLICY_ID X ++ id)%string in
  let* nftTxs :=
    Api.assetTxs nft
      {| q_count := 1; q_order := Desc; q_cursor := CUndefined |} in
  match atx_data nftTxs with
  | [] => ret None
  | tx :: _ => getPoolInTx (tx_hash tx)
  end.

End WithExternals.
End MaestroAdapter.

(** ** [src/types/adapter.ts] *)
Module TypesAdapter.

Record PoolHistory : Type := mkPoolHistory {
  txHash : string;
  time : JsDate
}.

(** [getPaginatedUtxosByPaymentCred(param, queryParam, page)] *)
Definition getPaginatedUtxosByPaymentCred (param : string)
    (queryParam : QueryParams) (page : Z) : M (JsObj PaginatedUtxoWithSlot) :=
  paginate utxo_next_cursor Api.utxosByPaymentCred param page queryParam.

(** [getPaginatedAssetTx(param, queryParam, page)] *)
Definition getPaginatedAssetTx (param : string)
    (queryParam : QueryParams) (page : Z) : M (JsObj PaginatedAssetTx) :=
  paginate atx_next_cursor Api.assetTxs param page queryParam.

Section WithExternals.
Variable X : Externals.

Definition getPools (page : Z) (count : option Z) (order : option Order)
  : M (list PoolState) :=
  let count := match count with Some c => c | None => 100 end in
  let order := match order with Some o => o | None => Asc end in
  let* paymentCred :=
    lift (getPaymentCredFromScriptHash X (POOL_SCRIPT_HASH X)) in
  let* res :=
    getPaginatedUtxosByPaymentCred paymentCred
      {| q_count := count; q_order := order; q_cursor := CUndefined |} page in
  match res with
  | EmptyObject =>
      (* [res.data] is [undefined] and [utxos.filter] is called on it *)
      throw (TypeError "Cannot read properties of undefined (reading 'filter')")
  | Obj res =>
      lift (map_throwing
              (fun utxo =>
                 result_bind
                   (invariant (or_empty (datum_hash utxo))
                      ("expect pool to have datum hash, got "
                         ++ or_empty (datum_hash utxo)))
                   (fun _ =>
                      PoolState_new X (utxo_address utxo)
                        {| txIn_txHash := utxo_tx_hash utxo;
                           txIn_index := utxo_index utxo |}
                        (toValue (utxo_assets utxo))
                        (or_empty (datum_hash utxo))))
              (filter
                 (fun utxo =>
                    isValidPoolOutput X (utxo_address utxo)
                      (toValue (utxo_assets utxo))
                      (or_null (datum_hash utxo)))
                 (utxo_data res)))
  end.

Definition getPoolHistory (id : string) (page : option Z) (count : option Z)
    (order : option Order) : M (list PoolHistory) :=
  let page := match page with Some p => p | None => 1 end in
  let count := match count with Some c => c | None => 100 end in
  let order := match order with Some o => o | None => Desc end in
  let nft := (POOL_NFT_POLICY_ID X ++ id)%string in
  let* nftTxs :=
    getPaginatedAssetTx nft
      {| q_count := count; q_order := order; q_cursor := CUndefined |} page in
  match nftTxs with
  | EmptyObject =>
      (* [nftTxs.data] is [undefined] and [.map] is called on it *)
      throw (TypeError "Cannot read properties of undefined (reading 'map')")
  | Obj nftTxs =>
      ret (map (fun tx =>
                  {| txHash := tx_hash tx;
                     time := Date_new (timestamp tx) |})
               (atx_data nftTxs))
  end.

Definition getPoolInTx := MaestroAdapter.getPoolInTx X.
Definition getPoolById := MaestroAdapter.getPoolById X.
End WithExternals.

Definition getAssetDecimals := MaestroAdapter.getAssetDecimals.
Definition getPoolPrice := MaestroAdapter.getPoolPrice.
End TypesAdapter.

(** ** Vocabulary of the statements about the pagination helpers *)

(** The reply to the [(k+1)]-th call made from world [w] on. *)
Definition nth_reply {R : Type} (reply : Upstream -> nat -> result R)
    (w : World) (k : nat) : result R :=
  reply (upstream w) (List.length (calls w) + k)%nat.

(** The first [n] calls made from [w] on are answered, none is rejected. *)
Definition answered {R : Type} (reply : Upstream -> nat -> result R)
    (w : World) (n : nat) : Prop :=
  forall k, (k < n)%nat -> exists r, nth_reply reply w k = Ok r.

(** None of the first [n] replies from [w] on carries [next_cursor: null]. *)
Definition cursors_not_null {R : Type} (next_cursor : R -> Cursor)
    (reply : Upstream -> nat -> result R) (w : World) (n : nat) : Prop :=
  forall k r, (k < n)%nat -> nth_reply reply w k = Ok r ->
    next_cursor r <> CNull.

(** [run], started in [w], sends exactly [n] requests, all of them to the
    endpoint [request param], and returns the reply to the [n]-th. *)
Definition returns_nth_reply {R : Type} (run : M (JsObj R))
    (reply : Upstream -> nat -> result R)
    (request : QueryParams -> ApiCall) (w : World) (n : nat) : Prop :=
  exists r w' qs,
    nth_reply reply w (n - 1) = Ok r /\
    run w = (Ok (Obj r), w') /\
    upstream w' = upstream w /\
    calls w' = (calls w ++ map request qs)%list /\
    List.length qs = n.

(** The queries [qs] sent one after the other, the first being [q1] and the
    call before it having been preceded by [i] others: each later query is
    the one before it, with the cursor of the reply in between (which is
    not [null]) assigned when that cursor is truthy. *)
Fixpoint chained {R : Type} (next_cursor : R -> Cursor)
    (reply : nat -> result R) (i : nat) (q1 : QueryParams)
    (qs : list QueryParams) : Prop :=
  match qs with
  | [] => True
  | q :: rest =>
      q = q1 /\
      match rest with
      | [] => True
      | _ :: _ =>
          exists r, reply i = Ok r /\ next_cursor r <> CNull /\
            chained next_cursor reply (S i) (assign_cursor q (next_cursor r))
              rest
      end
  end.

(** The property of serial dependence as the helpers have it: in the
    queries [qs] sent from [w] on, every query after the first carries the
    [next_cursor] of the reply before it when that is a non-empty string,
    and is the query before it, unchanged, when it is not. *)
Definition serially_dependent {R : Type} (next_cursor : R -> Cursor)
    (reply : Upstream -> nat -> result R) (w : World)
    (qs : list QueryParams) : Prop :=
  forall k qk qk1,
    nth_error qs k = Some qk -> nth_error qs (S k) = Some qk1 ->
    exists r, nth_reply reply w k = Ok r /\
      next_cursor r <> CNull /\
      (truthy (next_cursor r) = true -> q_cursor qk1 = next_cursor r) /\
      (truthy (next_cursor r) = false -> qk1 = qk).

(** The claim of serial dependence read to the letter: every query after
    the first carries the [next_cursor] of the reply before it. *)
Definition cursor_is_previous_next_cursor {R : Type} (next_cursor : R -> Cursor)
    (reply : Upstream -> nat -> result R) (w : World)
    (qs : list QueryParams) : Prop :=
  forall k qk1,
    nth_error qs (S k) = Some qk1 ->
    exists r, nth_reply reply w k = Ok r /\ q_cursor qk1 = next_cursor r.

(** ** Vocabulary of the statements about [getAssetDecimals] *)

(** The hexadecimal characters, listed. *)
Definition hex_digits : list ascii :=
  list_ascii_of_string "0123456789abcdefABCDEF".

(** A well-formed asset identifier of bounded length: a non-empty string
    of hexadecimal characters, at most 122 of them. *)
Definition hex_identifier (s : string) : Prop :=
  s <> EmptyString /\
  Forall (fun c => In c hex_digits) (list_ascii_of_string s) /\
  (String.length s <= 122)%nat.

(** ** Vocabulary of the statements about [getPoolPrice] *)

(** [reserve / 10^decimals], exactly. *)
Definition exact_adjusted (reserve decimals : Z) : Q :=
  (inject_Z reserve / inject_Z 10 ^ decimals)%Q.

(** A positive [x] rounded to 20 decimal places, half up. *)
Definition half_up_20 (x : Q) : Q :=
  (inject_Z (Qfloor (x * inject_Z (10 ^ 20) + (1 # 2))) / inject_Z (10 ^ 20))%Q.

(** Half a unit of the 20th decimal place. *)
Definition half_unit_20 : Q := ((1 # 2) / inject_Z (10 ^ 20))%Q.

(** The arithmetic of [getPoolPrice] once both decimals are known. *)
Definition price_pair (rA rB dA dB : Z) : result (Big.t * Big.t) :=
  result_bind (Big.pow (Big.of_Z 10) dA) (fun tenA =>
  result_bind (Big.div (Big.of_Z rA) tenA) (fun adjustedReserveA =>
  result_bind (Big.pow (Big.of_Z 10) dB) (fun tenB =>
  result_bind (Big.div (Big.of_Z rB) tenB) (fun adjustedReserveB =>
  result_bind (Big.div adjustedReserveA adjustedReserveB) (fun priceAB =>
  result_bind (Big.div adjustedReserveB adjustedReserveA) (fun priceBA =>
  Ok (priceAB, priceBA))))))).

(** The lookups of decimals that [getPoolPrice] needs for one asset: none
    when the decimals are supplied or the asset is lovelace. *)
Definition decimals_lookup (asset : string) (supplied : option Z)
  : list ApiCall :=
  match supplied with
  | Some _ => []
  | None => if (asset =? "lovelace")%string then [] else [CallAssetInfo asset]
  end.

(** ** Concrete indexers and inputs used in the examples *)
Module Examples.

Definition unreachable {A : Type} : nat -> result A :=
  fun _ => Err (UpstreamError "connection refused").

Definition tx_page (h : string) (c : Cursor) : PaginatedAssetTx :=
  {| atx_data := [ {| tx_hash := h; slot := 5; timestamp := "2024-01-01 00:00:00" |} ];
     atx_next_cursor := c |}.

Definition utxo_page (h : string) (c : Cursor) : PaginatedUtxoWithSlot :=
  {| utxo_data :=
       [ {| utxo_address := "addr1pool"; utxo_tx_hash := h; utxo_index := 0;
            utxo_assets := []; utxo_datum := Some {| hash := "d0" |} |} ];
     utxo_next_cursor := c |}.

(** Three pages; [c2] is the cursor of the second reply and [c3] the cursor
    of the third and of every later one. *)
Definition three_pages (c2 c3 : Cursor) : Upstream :=
  {| reply_assetTxs := fun n =>
       match n with
       | 0%nat => Ok (tx_page "tx1" (CString "abc"))
       | 1%nat => Ok (tx_page "tx2" c2)
       | _ => Ok (tx_page "tx3" c3)
       end;
     reply_utxosByPaymentCred := fun n =>
       match n with
       | 0%nat => Ok (utxo_page "tx1" (CString "abc"))
       | 1%nat => Ok (utxo_page "tx2" c2)
       | _ => Ok (utxo_page "tx3" c3)
       end;
     reply_txInfo := unreachable;
     reply_assetInfo := unreachable |}.

(** An indexer whose asset-metadata lookup always answers [r]. *)
Definition asset_info_replies (r : result AssetInfo) : Upstream :=
  {| reply_assetTxs := unreachable;
     reply_utxosByPaymentCred := unreachable;
     reply_txInfo := unreachable;
     reply_assetInfo := fun _ => r |}.

(** An indexer whose transaction has an output at a user address and one
    at the pool address, the latter with datum [d]. *)
Definition tx_with_pool_output (d : option DatumOption) : Upstream :=
  {| reply_assetTxs := unreachable;
     reply_utxosByPaymentCred := unreachable;
     reply_txInfo := fun _ =>
       Ok {| outputs :=
               [ {| utxo_address := "addr1user"; utxo_tx_hash := "tx9";
                    utxo_index := 0; utxo_assets := [];
                    utxo_datum := None |};
                 {| utxo_address := "addr1pool"; utxo_tx_hash := "tx9";
                    utxo_index := 1;
                    utxo_assets := [ {| unit_ := "lovelace"; amount := 7 |} ];
                    utxo_datum := d |} ] |};
     reply_assetInfo := unreachable |}.

(** A pool of lovelace and one token with the given reserves. *)
Definition pool_with (rA rB : Z) : PoolState :=
  {| address := "addr1pool";
     txIn := {| txIn_txHash := "tx9"; txIn_index := 1 |};
     value := [];
     datumHash := "d0";
     assetA := "lovelace";
     assetB := "0be55d26746f6b";
     reserveA := rA;
     reserveB := rB |}.

Definition fresh (up : Upstream) : World := {| upstream := up; calls := [] |}.

(** [{ count: 100, order: "desc" }] *)
Definition q0 : QueryParams :=
  {| q_count := 100; q_order := Desc; q_cursor := CUndefined |}.

(** A toy serialization library: addresses are their own credentials, and
    ["addr1pool"] is the one address locked by the pool script. *)
Definition toy : Externals :=
  {| POOL_SCRIPT_HASH := "script1pool";
     POOL_NFT_POLICY_ID := "0be55d26";
     Address := string;
     SpecificAddress := string;
     StakeCredential := string;
     ScriptHash := string;
     Address_from_bech32 := fun s =>
       if (s =? EmptyString)%string then Err (LibraryError "invalid bech32") else Ok s;
     BaseAddress_from_address := fun a =>
       if String.prefix "addr1" a then Some a else None;
     EnterpriseAddress_from_address := fun _ => None;
     PointerAddress_from_address := fun _ => None;
     RewardAddress_from_address := fun a =>
       if String.prefix "stake1" a then Some a else None;
     payment_cred := fun a => a;
     to_scripthash := fun c =>
       if (c =? "addr1pool")%string then Some "pool" else None;
     ScriptHash_to_bech32 := fun h p => Ok (p ++ "1" ++ h)%string;
     ScriptHash_from_bech32 := fun s => Ok s;
     StakeCredential_from_scripthash := fun h => h;
     StakeCredential_to_hex := fun c => c;
     checkValidPoolOutput := fun _ _ _ => Ok tt;
     isValidPoolOutput := fun _ _ _ => true;
     PoolState_assets := fun _ => Ok ("lovelace", 1, ("746f6b", 1)) |}.

(** An indexer that knows one pool: its NFT was last moved by ["tx9"],
    whose second output is the pool output with datum [d]; the same output
    is the one unspent output at the pool script. *)
Definition pool_indexer (d : option DatumOption) : Upstream :=
  {| reply_assetTxs := fun _ => Ok (tx_page "tx9" CNull);
     reply_utxosByPaymentCred := fun _ =>
       Ok {| utxo_data :=
               [ {| utxo_address := "addr1pool"; utxo_tx_hash := "tx9";
                    utxo_index := 1;
                    utxo_assets := [ {| unit_ := "lovelace"; amount := 7 |} ];
                    utxo_datum := d |} ];
             utxo_next_cursor := CNull |};
     reply_txInfo := reply_txInfo (tx_with_pool_output d);
     reply_assetInfo := unreachable |}.

(** An indexer whose transaction has an output at an address that is not
    bech32 before the pool output. *)
Definition tx_with_malformed_address : Upstream :=
  {| reply_assetTxs := unreachable;
     reply_utxosByPaymentCred := unreachable;
     reply_txInfo := fun _ =>
       Ok {| outputs :=
               [ {| utxo_address := "addr1user"; utxo_tx_hash := "tx9";
                    utxo_index := 0; utxo_assets := [];
                    utxo_datum := None |};
                 {| utxo_address := EmptyString; utxo_tx_hash := "tx9";
                    utxo_index := 1; utxo_assets := [];
                    utxo_datum := None |};
                 {| utxo_address := "addr1pool"; utxo_tx_hash := "tx9";
                    utxo_index := 2; utxo_assets := [];
                    utxo_datum := Some {| hash := "d0" |} |} ] |};
     reply_assetInfo := unreachable |}.

End Examples.

(** * Facts *)

Section PaginationFacts.
Context {R : Type}.
Variable next_cursor : R -> Cursor.
Variable reply : Upstream -> nat -> result R.
Variable request : string -> QueryParams -> ApiCall.
Variable param : string.
Variable page : Z.

Local Notation "'endpoint'" := (fun p q => Api.call reply (request p q)).
Local Notation "'loop'" := (paginate_loop next_cursor endpoint param page).

Lemma paginate_loop_step curr res cursor queryParam w :
  loop curr res cursor queryParam w =
  if curr <? page then
    if is_null cursor then (Ok res, w)
    else
      match reply (upstream w) (List.length (calls w)) with
      | Err e =>
          (Err e, sent w (request param (assign_cursor queryParam cursor)))
      | Ok r =>
          loop (curr + 1) (Obj r) (next_cursor r)
            (assign_cursor queryParam cursor)
            (sent w (request param (assign_cursor queryParam cursor)))
      end
  else (Ok res, w).
Proof.
  rewrite paginate_loop_equation_1.
  destruct (Z_lt_dec curr page) as [Hlt | Hge]; cbn.
  - rewrite (proj2 (Z.ltb_lt curr page) Hlt).
    destruct (is_null cursor); cbn; [reflexivity |].
    unfold Api.call.
    destruct (reply (upstream w) (List.length (calls w))); reflexivity.
  - rewrite (proj2 (Z.ltb_nlt curr page) Hge). reflexivity.
Qed.

Lemma paginate_loop_stops curr res cursor queryParam w :
  page <= curr \/ cursor = CNull ->
  loop curr res cursor queryParam w = (Ok res, w).
Proof.
  intros H. rewrite paginate_loop_step.
  destruct (curr <? page) eqn:E; [| reflexivity].
  destruct H as [H | ->]; [| reflexivity].
  apply Z.ltb_lt in E. lia.
Qed.

Lemma is_null_false c : c <> CNull -> is_null c = false.
Proof. destruct c; intros H; try reflexivity. now elim H. Qed.

Lemma length_calls_sent w c :
  List.length (calls (sent w c)) = S (List.length (calls w)).
Proof. cbn. rewrite length_app. cbn. lia. Qed.

Lemma nth_reply_sent w c k :
  nth_reply reply (sent w c) k = nth_reply reply w (S k).
Proof.
  unfold nth_reply. rewrite length_calls_sent. cbn [upstream sent].
  f_equal. lia.
Qed.

Lemma nth_reply_0 w :
  nth_reply reply w 0 = reply (upstream w) (List.length (calls w)).
Proof. unfold nth_reply. f_equal. lia. Qed.

(** [m + 1] iterations: the replies are all there, the first [m] carry a
    cursor that is not [null], and after the last one the loop ends, by the
    page count or by a [null] cursor. *)
Lemma paginate_loop_chain (m : nat) :
  forall curr res cursor queryParam w,
    cursor <> CNull ->
    curr + Z.of_nat (S m) <= page ->
    answered reply w (S m) ->
    cursors_not_null next_cursor reply w m ->
    (curr + Z.of_nat (S m) = page \/
     exists r, nth_reply reply w m = Ok r /\ next_cursor r = CNull) ->
    exists r w' qs,
      nth_reply reply w m = Ok r /\
      loop curr res cursor queryParam w = (Ok (Obj r), w') /\
      upstream w' = upstream w /\
      calls w' = (calls w ++ map (request param) qs)%list /\
      List.length qs = S m.
Proof.
  induction m as [| m IH]; intros curr res cursor queryParam w Hc Hle Ha Hnn Hend.
  - destruct (Ha 0%nat) as [r0 Hr0]; [lia |].
    exists r0, (sent w (request param (assign_cursor queryParam cursor))),
      [assign_cursor queryParam cursor].
    split; [exact Hr0 |].
    rewrite paginate_loop_step, (is_null_false _ Hc).
    rewrite (proj2 (Z.ltb_lt curr page)) by lia.
    rewrite nth_reply_0 in Hr0. rewrite Hr0.
    rewrite paginate_loop_stops.
    + repeat split; reflexivity.
    + destruct Hend as [He | [r [Hr Hnull]]]; [left; lia | right].
      rewrite nth_reply_0, Hr0 in Hr. now inversion Hr; subst.
  - destruct (Ha 0%nat) as [r0 Hr0]; [lia |].
    assert (Hr0c : next_cursor r0 <> CNull) by (apply (Hnn 0%nat); [lia | exact Hr0]).
    set (q1 := assign_cursor queryParam cursor).
    set (w1 := sent w (request param q1)).
    destruct (IH (curr + 1) (Obj r0) (next_cursor r0) q1 w1)
      as (r & w' & qs & Hr & Hrun & Hup & Hcalls & Hlen).
    + exact Hr0c.
    + lia.
    + intros k Hk. unfold w1. rewrite nth_reply_sent. apply Ha. lia.
    + intros k r Hk. unfold w1. rewrite nth_reply_sent. apply Hnn. lia.
    + destruct Hend as [He | [r [Hr Hnull]]]; [left; lia | right].
      exists r. unfold w1. rewrite nth_reply_sent. now split.
    + exists r, w', (q1 :: qs).
      unfold w1 in Hr. rewrite nth_reply_sent in Hr.
      split; [exact Hr |].
      rewrite paginate_loop_step, (is_null_false _ Hc).
      rewrite (proj2 (Z.ltb_lt curr page)) by lia.
      rewrite nth_reply_0 in Hr0. rewrite Hr0.
      fold q1 w1. rewrite Hrun.
      split; [reflexivity |]. split; [rewrite Hup; reflexivity |].
      split; [| cbn; lia].
      rewrite Hcalls. unfold w1. cbn. rewrite <- app_assoc. reflexivity.
Qed.

(** The helper returns the reply to its [n]-th call when the first [n - 1]
    replies carry a cursor that is not [null] and either [n] is the page
    asked for or the [n]-th reply carries [null]. *)
Lemma paginate_returns_nth (n : nat) queryParam w :
  (1 <= n)%nat ->
  Z.of_nat n <= page ->
  answered reply w n ->
  cursors_not_null next_cursor reply w (n - 1) ->
  (Z.of_nat n = page \/
   exists r, nth_reply reply w (n - 1) = Ok r /\ next_cursor r = CNull) ->
  returns_nth_reply (paginate next_cursor endpoint param page queryParam)
    reply (request param) w n.
Proof.
  intros Hn Hle Ha Hnn Hend.
  destruct n as [| m]; [lia |].
  replace (S m - 1)%nat with m in * by lia.
  assert (Hend' : 0 + Z.of_nat (S m) = page \/
     exists r, nth_reply reply w m = Ok r /\ next_cursor r = CNull)
    by (destruct Hend as [He | He]; [left; lia | right; exact He]).
  destruct (paginate_loop_chain m 0 EmptyObject (CString EmptyString) queryParam w
              ltac:(discriminate) ltac:(lia) Ha Hnn Hend')
    as (r & w' & qs & Hr & Hrun & Hup & Hcalls & Hlen).
  exists r, w', qs. replace (S m - 1)%nat with m by lia.
  repeat split; assumption.
Qed.

(** Without a page to fetch the helper returns the empty object and sends
    nothing. *)
Lemma paginate_no_page queryParam w :
  page <= 0 ->
  paginate next_cursor endpoint param page queryParam w = (Ok EmptyObject, w).
Proof. intros H. unfold paginate. apply paginate_loop_stops. now left. Qed.

(** What the loop returns: an error of the endpoint, the [res] it started
    from, or one of the replies. *)
Lemma paginate_loop_result (n : nat) :
  forall curr res cursor queryParam w,
    (Z.to_nat (page - curr) <= n)%nat ->
    (exists e, fst (loop curr res cursor queryParam w) = Err e) \/
    fst (loop curr res cursor queryParam w) = Ok res \/
    (exists k r,
       (k < Z.to_nat (page - curr))%nat /\
       nth_reply reply w k = Ok r /\
       fst (loop curr res cursor queryParam w) = Ok (Obj r)).
Proof.
  induction n as [| n IH]; intros curr res cursor queryParam w Hn.
  - right; left. rewrite paginate_loop_stops by (left; lia). reflexivity.
  - rewrite paginate_loop_step.
    destruct (Z.ltb_spec curr page) as [Hlt | Hge]; [| now right; left].
    destruct (is_null cursor); [now right; left |].
    destruct (reply (upstream w) (List.length (calls w))) as [r | e] eqn:Hr;
      [| left; now exists e].
    rewrite <- nth_reply_0 in Hr.
    destruct (IH (curr + 1) (Obj r) (next_cursor r)
                (assign_cursor queryParam cursor)
                (sent w (request param (assign_cursor queryParam cursor)))
                ltac:(lia))
      as [Herr | [Hsame | (k & r' & Hk & Hr' & Hres)]].
    + left. exact Herr.
    + right; right. exists 0%nat, r. repeat split; [lia | exact Hr | exact Hsame].
    + right; right. exists (S k), r'. rewrite nth_reply_sent in Hr'.
      repeat split; [lia | exact Hr' | exact Hres].
Qed.

(** Every run of the loop, whatever the replies: what it sends is a chain
    of queries, each built from the one before and the reply to it. *)
Lemma paginate_loop_trace (n : nat) :
  forall curr res cursor queryParam w,
    (Z.to_nat (page - curr) <= n)%nat ->
    exists qs,
      calls (snd (loop curr res cursor queryParam w))
        = (calls w ++ map (request param) qs)%list /\
      upstream (snd (loop curr res cursor queryParam w)) = upstream w /\
      (List.length qs <= Z.to_nat (page - curr))%nat /\
      chained next_cursor (reply (upstream w)) (List.length (calls w))
        (assign_cursor queryParam cursor) qs.
Proof.
  induction n as [| n IH]; intros curr res cursor queryParam w Hn.
  - exists []. rewrite paginate_loop_stops by (left; lia).
    cbn. rewrite app_nil_r. repeat split; lia.
  - rewrite paginate_loop_step.
    destruct (Z.ltb_spec curr page) as [Hlt | Hge].
    2: { exists []. cbn. rewrite app_nil_r. repeat split; lia. }
    destruct (is_null cursor) eqn:Hnull.
    { exists []. cbn. rewrite app_nil_r. repeat split; lia. }
    set (q1 := assign_cursor queryParam cursor).
    set (w1 := sent w (request param q1)).
    destruct (reply (upstream w) (List.length (calls w))) as [r | e] eqn:Hr.
    2: { exists [q1]. cbn. repeat split; lia. }
    destruct (is_null (next_cursor r)) eqn:Hnext.
    + exists [q1].
      rewrite paginate_loop_stops
        by (right; destruct (next_cursor r); now try discriminate).
      cbn. repeat split; lia.
    + destruct (IH (curr + 1) (Obj r) (next_cursor r) q1 w1 ltac:(lia))
        as (qs & Hcalls & Hup & Hlen & Hch).
      exists (q1 :: qs). rewrite Hcalls, Hup.
      split; [unfold w1; cbn; rewrite <- app_assoc; reflexivity |].
      split; [reflexivity |].
      split; [cbn; lia |].
      cbn. split; [reflexivity |].
      destruct qs as [| q2 qs]; [exact I |].
      exists r. split; [exact Hr |].
      split; [intros E; rewrite E in Hnext; discriminate |].
      unfold w1 in Hch. rewrite length_calls_sent in Hch. exact Hch.
Qed.

Lemma chained_serially_dependent (up : Upstream) :
  forall qs i q1 k qk qk1,
    chained next_cursor (reply up) i q1 qs ->
    nth_error qs k = Some qk -> nth_error qs (S k) = Some qk1 ->
    exists r, reply up (i + k)%nat = Ok r /\
      next_cursor r <> CNull /\
      qk1 = assign_cursor qk (next_cursor r).
Proof.
  induction qs as [| q qs IH]; intros i q1 k qk qk1 Hch Hk Hk1.
  - destruct k; discriminate.
  - cbn in Hch. destruct Hch as [-> Hrest].
    destruct qs as [| q2 qs]; [destruct k; discriminate |].
    destruct Hrest as (r & Hr & Hnn & Hch).
    destruct k as [| k].
    + cbn in Hk, Hk1. inversion Hk; subst qk. inversion Hk1; subst qk1.
      exists r. rewrite Nat.add_0_r. repeat split; try assumption.
      cbn in Hch. now destruct Hch as [-> _].
    + destruct (IH (S i) _ k qk qk1 Hch Hk Hk1) as (r' & Hr' & Hnn' & Hq).
      exists r'. replace (i + S k)%nat with (S i + k)%nat by lia.
      repeat split; assumption.
Qed.

Lemma assign_cursor_truthy q c :
  truthy c = true -> q_cursor (assign_cursor q c) = c.
Proof. unfold assign_cursor. now intros ->. Qed.

Lemma assign_cursor_falsy q c :
  truthy c = false -> assign_cursor q c = q.
Proof. unfold assign_cursor. now intros ->. Qed.

(** Every run of a helper: the requests it sends go to its endpoint, are at
    most [page] many, start with the caller's query and are serially
    dependent. *)
Lemma paginate_trace queryParam w :
  exists qs,
    calls (snd (paginate next_cursor endpoint param page queryParam w))
      = (calls w ++ map (request param) qs)%list /\
    (List.length qs <= Z.to_nat page)%nat /\
    (forall q1, nth_error qs 0 = Some q1 -> q1 = queryParam) /\
    serially_dependent next_cursor reply w qs.
Proof.
  unfold paginate.
  destruct (paginate_loop_trace (Z.to_nat (page - 0)) 0 EmptyObject
              (CString EmptyString) queryParam w (le_n _))
    as (qs & Hcalls & _ & Hlen & Hch).
  exists qs. split; [exact Hcalls |].
  split; [now rewrite Z.sub_0_r in Hlen |].
  split.
  - intros q1 Hq1. destruct qs as [| q qs]; [discriminate |].
    cbn in Hq1. inversion Hq1; subst q1.
    cbn in Hch. now destruct Hch as [-> _].
  - intros k qk qk1 Hk Hk1.
    destruct (chained_serially_dependent _ _ _ _ _ _ _ Hch Hk Hk1)
      as (r & Hr & Hnn & Hq).
    exists r. split; [exact Hr |]. split; [exact Hnn |].
    subst qk1. split.
    + apply assign_cursor_truthy.
    + apply assign_cursor_falsy.
Qed.

End PaginationFacts.

(** ** The pagination helpers *)

(** C1. For every page number [N >= 1] and every chain of replies of which
    the first [N] are delivered and the first [N - 1] carry a [next_cursor]
    that is not [null], [getPaginatedAssetTx] and
    [getPaginatedUtxosByPaymentCred] send exactly [N] requests and return
    the reply to the [N]-th. *)
Theorem pagination_returns_page_N
    (N : Z) (param : string) (queryParam : QueryParams) (w : World) :
  1 <= N ->
  (answered reply_assetTxs w (Z.to_nat N) ->
   cursors_not_null atx_next_cursor reply_assetTxs w (Z.to_nat N - 1) ->
   returns_nth_reply (TypesAdapter.getPaginatedAssetTx param queryParam N)
     reply_assetTxs (CallAssetTxs param) w (Z.to_nat N))
  /\
  (answered reply_utxosByPaymentCred w (Z.to_nat N) ->
   cursors_not_null utxo_next_cursor reply_utxosByPaymentCred w
     (Z.to_nat N - 1) ->
   returns_nth_reply
     (TypesAdapter.getPaginatedUtxosByPaymentCred param queryParam N)
     reply_utxosByPaymentCred (CallUtxosByPaymentCred param) w (Z.to_nat N)).
Proof.
  intros HN. split; intros Ha Hnn.
  - apply (paginate_returns_nth atx_next_cursor reply_assetTxs CallAssetTxs);
      try assumption; try lia.
  - apply (paginate_returns_nth utxo_next_cursor reply_utxosByPaymentCred
             CallUtxosByPaymentCred); try assumption; try lia.
Qed.

(** C2. For every page number [N] and every [k] with [1 <= k < N]: when the
    first [k] replies are delivered and the [k]-th is the first to carry
    [next_cursor: null], both helpers send exactly [k] requests and return
    the reply to the [k]-th, not an error. *)
Theorem pagination_stops_at_null_cursor
    (N : Z) (k : nat) (param : string) (queryParam : QueryParams) (w : World) :
  (1 <= k)%nat -> Z.of_nat k < N ->
  (answered reply_assetTxs w k ->
   cursors_not_null atx_next_cursor reply_assetTxs w (k - 1) ->
   (exists r, nth_reply reply_assetTxs w (k - 1) = Ok r /\
              atx_next_cursor r = CNull) ->
   returns_nth_reply (TypesAdapter.getPaginatedAssetTx param queryParam N)
     reply_assetTxs (CallAssetTxs param) w k)
  /\
  (answered reply_utxosByPaymentCred w k ->
   cursors_not_null utxo_next_cursor reply_utxosByPaymentCred w (k - 1) ->
   (exists r, nth_reply reply_utxosByPaymentCred w (k - 1) = Ok r /\
              utxo_next_cursor r = CNull) ->
   returns_nth_reply
     (TypesAdapter.getPaginatedUtxosByPaymentCred param queryParam N)
     reply_utxosByPaymentCred (CallUtxosByPaymentCred param) w k).
Proof.
  intros Hk HN. split; intros Ha Hnn Hnull.
  - apply (paginate_returns_nth atx_next_cursor reply_assetTxs CallAssetTxs);
      try assumption; try lia. now right.
  - apply (paginate_returns_nth utxo_next_cursor reply_utxosByPaymentCred
             CallUtxosByPaymentCred); try assumption; try lia. now right.
Qed.

(** C8, as amended. In every run of either helper the requests go to the
    helper's endpoint and are at most [N]; the first is the caller's query
    as it was passed; every later one follows a reply whose [next_cursor]
    is not [null], carries that [next_cursor] when it is a non-empty string,
    and repeats the query before it when it is not. *)
Theorem pagination_serially_dependent
    (N : Z) (param : string) (queryParam : QueryParams) (w : World) :
  (exists qs,
     calls (snd (TypesAdapter.getPaginatedAssetTx param queryParam N w))
       = (calls w ++ map (CallAssetTxs param) qs)%list /\
     (List.length qs <= Z.to_nat N)%nat /\
     (forall q1, nth_error qs 0 = Some q1 -> q1 = queryParam) /\
     serially_dependent atx_next_cursor reply_assetTxs w qs)
  /\
  (exists qs,
     calls (snd (TypesAdapter.getPaginatedUtxosByPaymentCred param queryParam
                   N w))
       = (calls w ++ map (CallUtxosByPaymentCred param) qs)%list /\
     (List.length qs <= Z.to_nat N)%nat /\
     (forall q1, nth_error qs 0 = Some q1 -> q1 = queryParam) /\
     serially_dependent utxo_next_cursor reply_utxosByPaymentCred w qs).
Proof.
  split.
  - exact (paginate_trace atx_next_cursor reply_assetTxs CallAssetTxs
             param N queryParam w).
  - exact (paginate_trace utxo_next_cursor reply_utxosByPaymentCred
             CallUtxosByPaymentCred param N queryParam w).
Qed.

(** C1 at three pages with cursors, page 3. *)
Lemma pagination_returns_page_N_witness :
  let w := Examples.fresh (Examples.three_pages (CString "def") CNull) in
  returns_nth_reply (TypesAdapter.getPaginatedAssetTx "nft" Examples.q0 3)
    reply_assetTxs (CallAssetTxs "nft") w 3
  /\
  returns_nth_reply
    (TypesAdapter.getPaginatedUtxosByPaymentCred "cred" Examples.q0 3)
    reply_utxosByPaymentCred (CallUtxosByPaymentCred "cred") w 3.
Proof.
  intros w.
  destruct (pagination_returns_page_N 3 "nft" Examples.q0 w) as [Htx _];
    [lia |].
  destruct (pagination_returns_page_N 3 "cred" Examples.q0 w) as [_ Hutxo];
    [lia |].
  split; [apply Htx | apply Hutxo].
  - intros [| [| [| k]]] Hk; try lia; eexists; reflexivity.
  - intros [| [| k]] r Hk Hr; try (cbn in Hk; lia);
      inversion Hr; discriminate.
  - intros [| [| [| k]]] Hk; try lia; eexists; reflexivity.
  - intros [| [| k]] r Hk Hr; try (cbn in Hk; lia);
      inversion Hr; discriminate.
Defined.

(** C2 at a chain whose second reply carries [null], page 5. *)
Lemma pagination_stops_at_null_cursor_witness :
  let w := Examples.fresh (Examples.three_pages CNull CNull) in
  returns_nth_reply (TypesAdapter.getPaginatedAssetTx "nft" Examples.q0 5)
    reply_assetTxs (CallAssetTxs "nft") w 2
  /\
  returns_nth_reply
    (TypesAdapter.getPaginatedUtxosByPaymentCred "cred" Examples.q0 5)
    reply_utxosByPaymentCred (CallUtxosByPaymentCred "cred") w 2.
Proof.
  intros w.
  destruct (pagination_stops_at_null_cursor 5 2 "nft" Examples.q0 w)
    as [Htx _]; [lia | lia |].
  destruct (pagination_stops_at_null_cursor 5 2 "cred" Examples.q0 w)
    as [_ Hutxo]; [lia | lia |].
  split; [apply Htx | apply Hutxo].
  - intros [| [| k]] Hk; try lia; eexists; reflexivity.
  - intros [| k] r Hk Hr; try (cbn in Hk; lia); inversion Hr; discriminate.
  - eexists; split; reflexivity.
  - intros [| [| k]] Hk; try lia; eexists; reflexivity.
  - intros [| k] r Hk Hr; try (cbn in Hk; lia); inversion Hr; discriminate.
  - eexists; split; reflexivity.
Defined.

(** C8, as amended, at the chain whose second reply carries no cursor: the
    second request carries the cursor of the first reply and the third
    repeats the second. *)
Lemma pagination_serially_dependent_witness :
  let w := Examples.fresh (Examples.three_pages CUndefined CNull) in
  exists q1 q2 q3,
    calls (snd (TypesAdapter.getPaginatedAssetTx "nft" Examples.q0 3 w))
      = map (CallAssetTxs "nft") [q1; q2; q3] /\
    q1 = Examples.q0 /\
    q_cursor q2 = CString "abc" /\
    q3 = q2.
Proof.
  intros w.
  destruct (pagination_serially_dependent 3 "nft" Examples.q0 w)
    as [(qs & Hcalls & _ & Hfirst & Hdep) _].
  vm_compute in Hcalls.
  destruct qs as [| q1 [| q2 [| q3 [| q4 qs]]]]; try discriminate Hcalls.
  exists q1, q2, q3.
  split; [vm_compute; exact Hcalls |].
  split; [exact (Hfirst q1 eq_refl) |].
  destruct (Hdep 0%nat q1 q2 eq_refl eq_refl) as (r1 & Hr1 & _ & Hyes1 & _).
  destruct (Hdep 1%nat q2 q3 eq_refl eq_refl) as (r2 & Hr2 & _ & _ & Hno2).
  inversion Hr1; subst r1. inversion Hr2; subst r2.
  split; [exact (Hyes1 eq_refl) | exact (Hno2 eq_refl)].
Defined.

(** C8, as stated, fails: when the second reply carries no [next_cursor]
    the third request repeats the cursor of the first reply, which is not
    the [next_cursor] of the reply before it. *)
Lemma pagination_stale_cursor_counterexample :
  let w := Examples.fresh (Examples.three_pages CUndefined CNull) in
  exists qs,
    calls (snd (TypesAdapter.getPaginatedAssetTx "nft" Examples.q0 3 w))
      = map (CallAssetTxs "nft") qs /\
    nth_error qs 2 = Some (set_cursor Examples.q0 (CString "abc")) /\
    nth_reply reply_assetTxs w 1 = Ok (Examples.tx_page "tx2" CUndefined) /\
    ~ cursor_is_previous_next_cursor atx_next_cursor reply_assetTxs w qs.
Proof.
  intros w.
  exists [Examples.q0; set_cursor Examples.q0 (CString "abc");
          set_cursor Examples.q0 (CString "abc")].
  split; [vm_compute; reflexivity |].
  split; [reflexivity |]. split; [reflexivity |].
  intros H. destruct (H 1%nat _ eq_refl) as (r & Hr & Hq).
  inversion Hr; subst r. discriminate Hq.
Qed.

(** C9. For every page number [N <= 0] both helpers send no request and
    return the empty object; [getPoolHistory] and [getPools] then throw a
    [TypeError] on the [data] they read from it ([getPools] unless deriving
    the payment credential has thrown before), and return no list. *)
Theorem pagination_without_page
    (X : Externals) (N : Z) (param id : string) (queryParam : QueryParams)
    (count : option Z) (order : option Order) (w : World) :
  N <= 0 ->
  TypesAdapter.getPaginatedAssetTx param queryParam N w = (Ok EmptyObject, w)
  /\ TypesAdapter.getPaginatedUtxosByPaymentCred param queryParam N w
     = (Ok EmptyObject, w)
  /\ TypesAdapter.getPoolHistory X id (Some N) count order w
     = (Err (TypeError "Cannot read properties of undefined (reading 'map')"),
        w)
  /\ (exists e, TypesAdapter.getPools X N count order w = (Err e, w))
  /\ (forall cred,
        getPaymentCredFromScriptHash X (POOL_SCRIPT_HASH X) = Ok cred ->
        TypesAdapter.getPools X N count order w
        = (Err (TypeError
                  "Cannot read properties of undefined (reading 'filter')"),
           w)).
Proof.
  intros HN.
  assert (Htx : forall p q, TypesAdapter.getPaginatedAssetTx p q N w
                            = (Ok EmptyObject, w))
    by (intros p q;
        exact (paginate_no_page atx_next_cursor reply_assetTxs CallAssetTxs
                 p N q w HN)).
  assert (Hutxo : forall p q, TypesAdapter.getPaginatedUtxosByPaymentCred p q N w
                              = (Ok EmptyObject, w))
    by (intros p q;
        exact (paginate_no_page utxo_next_cursor reply_utxosByPaymentCred
                 CallUtxosByPaymentCred p N q w HN)).
  split; [apply Htx |]. split; [apply Hutxo |].
  split.
  { unfold TypesAdapter.getPoolHistory, bind. rewrite Htx. reflexivity. }
  assert (Hpools : forall cred,
            getPaymentCredFromScriptHash X (POOL_SCRIPT_HASH X) = Ok cred ->
            TypesAdapter.getPools X N count order w
            = (Err (TypeError
                      "Cannot read properties of undefined (reading 'filter')"),
               w)).
  { intros cred Hcred. unfold TypesAdapter.getPools, bind, lift.
    rewrite Hcred, Hutxo. reflexivity. }
  split; [| exact Hpools].
  destruct (getPaymentCredFromScriptHash X (POOL_SCRIPT_HASH X))
    as [cred | e] eqn:Hcred.
  - eexists. apply (Hpools cred). reflexivity.
  - exists e. unfold TypesAdapter.getPools, bind, lift. rewrite Hcred.
    reflexivity.
Qed.

(** C9 at pages 0 and -1. *)
Lemma pagination_without_page_witness :
  let w := Examples.fresh (Examples.three_pages (CString "def") CNull) in
  TypesAdapter.getPaginatedAssetTx "nft" Examples.q0 0 w = (Ok EmptyObject, w)
  /\ TypesAdapter.getPoolHistory Examples.toy "706f6f6c" (Some 0) None None w
     = (Err (TypeError "Cannot read properties of undefined (reading 'map')"),
        w)
  /\ TypesAdapter.getPools Examples.toy (-1) None None w
     = (Err (TypeError
               "Cannot read properties of undefined (reading 'filter')"),
        w).
Proof.
  intros w.
  destruct (pagination_without_page Examples.toy 0 "nft" "706f6f6c"
              Examples.q0 None None w) as (H1 & _ & H3 & _); [lia |].
  destruct (pagination_without_page Examples.toy (-1) "nft" "706f6f6c"
              Examples.q0 None None w) as (_ & _ & _ & _ & H5); [lia |].
  split; [exact H1 |]. split; [exact H3 |].
  apply (H5 "script1pool"). reflexivity.
Defined.

(** ** [getAssetDecimals] *)

Lemma hex_class_digits c : hex_class c = existsb (Ascii.eqb c) hex_digits.
Proof.
  destruct c as [[] [] [] [] [] [] [] []]; reflexivity.
Qed.

Lemma hex_class_spec c : hex_class c = true <-> In c hex_digits.
Proof.
  rewrite hex_class_digits, existsb_exists. split.
  - intros (x & Hin & Heq). apply Ascii.eqb_eq in Heq. now subst.
  - intros Hin. exists c. split; [exact Hin | apply Ascii.eqb_refl].
Qed.

Lemma match_star_to_end_spec cls s :
  match_star_to_end cls s = true <->
  Forall (fun c => cls c = true) (list_ascii_of_string s).
Proof.
  induction s as [| c s IH]; cbn.
  - split; [constructor | reflexivity].
  - rewrite andb_true_iff, IH. split.
    + intros [Hc Hs]. now constructor.
    + intros H. inversion H; subst. now split.
Qed.

(** The regular expression accepts the non-empty strings of hexadecimal
    characters, and only those. *)
Lemma isValidHex_spec s :
  isValidHex s = true <->
  s <> EmptyString /\ Forall (fun c => In c hex_digits) (list_ascii_of_string s).
Proof.
  unfold isValidHex, match_plus_anchored.
  destruct s as [| c s].
  - split; [discriminate | intros [H _]; now elim H].
  - change (hex_class c && match_star_to_end hex_class s)
      with (match_star_to_end hex_class (String c s)).
    rewrite match_star_to_end_spec. split.
    + intros H. split; [discriminate |].
      eapply Forall_impl; [| exact H]. intros a. apply hex_class_spec.
    + intros [_ H].
      eapply Forall_impl; [| exact H]. intros a. apply hex_class_spec.
Qed.

Lemma hex_identifier_test s :
  isValidHex s && (String.length s <=? 122)%nat = true <-> hex_identifier s.
Proof.
  unfold hex_identifier.
  rewrite andb_true_iff, isValidHex_spec, Nat.leb_le. tauto.
Qed.

(** C5. For every asset identifier other than ["lovelace"]: when the
    metadata lookup fails, [getAssetDecimals] returns [0] if the identifier
    is a non-empty string of hexadecimal characters of length at most 122
    and rethrows the error of the lookup if it is not; when the lookup
    succeeds it returns the registered decimals, or [0] without them, and
    does not throw. *)
Theorem getAssetDecimals_lookup (asset : string) (w : World) :
  asset <> "lovelace" ->
  (forall e, nth_reply reply_assetInfo w 0 = Err e ->
     (hex_identifier asset ->
      fst (MaestroAdapter.getAssetDecimals asset w) = Ok 0) /\
     (~ hex_identifier asset ->
      fst (MaestroAdapter.getAssetDecimals asset w) = Err e))
  /\
  (forall info, nth_reply reply_assetInfo w 0 = Ok info ->
     fst (MaestroAdapter.getAssetDecimals asset w)
     = Ok (match registry_decimals info with Some d => d | None => 0 end)).
Proof.
  intros Hne.
  unfold MaestroAdapter.getAssetDecimals.
  rewrite (proj2 (String.eqb_neq asset "lovelace") Hne).
  unfold try_catch, bind, Api.assetInfo, Api.call, ret, throw.
  split.
  - intros e He. rewrite nth_reply_0 in He. rewrite He. split; intros Hhex.
    + rewrite (proj2 (hex_identifier_test asset) Hhex). reflexivity.
    + destruct (isValidHex asset && (String.length asset <=? 122)%nat)
        eqn:Htest; [| reflexivity].
      elim Hhex. now apply hex_identifier_test.
  - intros info Hinfo. rewrite nth_reply_0 in Hinfo. rewrite Hinfo.
    reflexivity.
Qed.

(** C5 at a hexadecimal and at a malformed identifier, with a failing and
    with a successful lookup. *)
Lemma getAssetDecimals_lookup_witness :
  fst (MaestroAdapter.getAssetDecimals "0be55d26746f6b"
         (Examples.fresh
            (Examples.asset_info_replies (Err (UpstreamError "404")))))
  = Ok 0
  /\
  fst (MaestroAdapter.getAssetDecimals "not-an-asset"
         (Examples.fresh
            (Examples.asset_info_replies (Err (UpstreamError "404")))))
  = Err (UpstreamError "404")
  /\
  fst (MaestroAdapter.getAssetDecimals "0be55d26746f6b"
         (Examples.fresh
            (Examples.asset_info_replies
               (Ok {| registry_decimals := Some 8 |}))))
  = Ok 8.
Proof.
  split; [| split].
  - destruct (getAssetDecimals_lookup "0be55d26746f6b"
                (Examples.fresh
                   (Examples.asset_info_replies (Err (UpstreamError "404")))))
      as [Hfail _]; [discriminate |].
    destruct (Hfail (UpstreamError "404") eq_refl) as [Hzero _].
    apply Hzero. apply hex_identifier_test. reflexivity.
  - destruct (getAssetDecimals_lookup "not-an-asset"
                (Examples.fresh
                   (Examples.asset_info_replies (Err (UpstreamError "404")))))
      as [Hfail _]; [discriminate |].
    destruct (Hfail (UpstreamError "404") eq_refl) as [_ Hthrow].
    apply Hthrow. intros H. apply hex_identifier_test in H. discriminate H.
  - destruct (getAssetDecimals_lookup "0be55d26746f6b"
                (Examples.fresh
                   (Examples.asset_info_replies
                      (Ok {| registry_decimals := Some 8 |}))))
      as [_ Hok]; [discriminate |].
    exact (Hok _ eq_refl).
Defined.

(** ** [getPoolInTx] *)

Lemma find_throwing_found {A : Type} (p : A -> result bool) (xs : list A) x :
  find_throwing p xs = Ok (Some x) -> In x xs /\ p x = Ok true.
Proof.
  induction xs as [| y xs IH]; cbn; [discriminate |].
  destruct (p y) as [[] | e] eqn:Hy; cbn; try discriminate.
  - intros H. inversion H; subst y. split; [now left | exact Hy].
  - intros H. destruct (IH H) as [Hin Hp]. split; [now right | exact Hp].
Qed.

Lemma is_pool_output_true (X : Externals) (o : Utxo) :
  is_pool_output X o = Ok true ->
  getScriptHashFromAddress X (utxo_address o) = Ok (Some (POOL_SCRIPT_HASH X)).
Proof.
  unfold is_pool_output.
  destruct (getScriptHashFromAddress X (utxo_address o)) as [[s |] | e];
    cbn; try discriminate.
  intros H. inversion H as [Heq]. apply String.eqb_eq in Heq. now subst.
Qed.

Lemma invariant_ok (condition message : string) :
  invariant condition message = Ok tt -> condition <> EmptyString.
Proof.
  unfold invariant. destruct (String.eqb_spec condition EmptyString); [discriminate |].
  intros _. assumption.
Qed.

(** C6. Every [PoolState] that [getPoolInTx] returns has a datum hash that
    is not empty and an address whose payment credential is the pool script
    hash; both are taken from one output of the transaction, checked before
    the state is built; and when the output selected has no datum hash the
    call throws. *)
Theorem getPoolInTx_validates_output
    (X : Externals) (txHash : string) (w : World) :
  (forall pool w',
     MaestroAdapter.getPoolInTx X txHash w = (Ok (Some pool), w') ->
     datumHash pool <> EmptyString /\
     getScriptHashFromAddress X (address pool)
       = Ok (Some (POOL_SCRIPT_HASH X)) /\
     exists poolTx o,
       nth_reply reply_txInfo w 0 = Ok poolTx /\
       In o (outputs poolTx) /\
       address pool = utxo_address o /\
       datum_hash o = Some (datumHash pool))
  /\
  (forall poolTx o,
     nth_reply reply_txInfo w 0 = Ok poolTx ->
     find_throwing (is_pool_output X) (outputs poolTx) = Ok (Some o) ->
     or_empty (datum_hash o) = EmptyString ->
     exists e,
       MaestroAdapter.getPoolInTx X txHash w
       = (Err e, sent w (CallTxInfo txHash))).
Proof.
  unfold MaestroAdapter.getPoolInTx, bind, lift, ret, Api.txInfo, Api.call.
  rewrite nth_reply_0. split.
  - intros pool w'.
    destruct (reply_txInfo (upstream w) (List.length (calls w)))
      as [poolTx | e]; [| discriminate].
    destruct (find_throwing (is_pool_output X) (outputs poolTx))
      as [[o |] | e] eqn:Hfind; try discriminate.
    destruct (checkValidPoolOutput X _ _ _) as [[] | e]; [| discriminate].
    destruct (invariant _ _) as [[] | e] eqn:Hinv; [| discriminate].
    unfold PoolState_new.
    destruct (PoolState_assets X _) as [[[a ra] [b rb]] | e];
      cbn; [| discriminate].
    intros H. inversion H; subst pool w'. cbn.
    apply find_throwing_found in Hfind as [Hin Hp].
    apply invariant_ok in Hinv.
    split; [exact Hinv |].
    split; [now apply is_pool_output_true |].
    exists poolTx, o. repeat split; try assumption.
    unfold or_empty in *. destruct (datum_hash o); [reflexivity | now elim Hinv].
  - intros poolTx o -> -> Hempty. rewrite Hempty.
    destruct (checkValidPoolOutput X _ _ _) as [[] | e].
    + eexists. reflexivity.
    + eexists. reflexivity.
Qed.

(** C6 at a transaction with a pool output, with and without a datum. *)
Lemma getPoolInTx_validates_output_witness :
  (exists pool w',
     MaestroAdapter.getPoolInTx Examples.toy "tx9"
       (Examples.fresh
          (Examples.tx_with_pool_output (Some {| hash := "d0" |})))
     = (Ok (Some pool), w') /\
     datumHash pool = "d0" /\
     address pool = "addr1pool" /\
     datumHash pool <> EmptyString /\
     getScriptHashFromAddress Examples.toy (address pool)
       = Ok (Some "script1pool"))
  /\
  (exists e,
     fst (MaestroAdapter.getPoolInTx Examples.toy "tx9"
            (Examples.fresh (Examples.tx_with_pool_output None)))
     = Err e).
Proof.
  split.
  - destruct (getPoolInTx_validates_output Examples.toy "tx9"
                (Examples.fresh
                   (Examples.tx_with_pool_output (Some {| hash := "d0" |}))))
      as [Hret _].
    eexists. eexists. split; [reflexivity |].
    split; [reflexivity |]. split; [reflexivity |].
    destruct (Hret _ _ eq_refl) as (Hd & Hs & _).
    split; [exact Hd | exact Hs].
  - destruct (getPoolInTx_validates_output Examples.toy "tx9"
                (Examples.fresh (Examples.tx_with_pool_output None)))
      as [_ Hthrow].
    destruct (Hthrow _ _ eq_refl eq_refl eq_refl) as [e He].
    exists e. rewrite He. reflexivity.
Defined.

(** ** [getPoolHistory] *)

(** [src/types/adapter.ts]: every entry is made of the transaction hash and
    the timestamp of the matching entry of the page returned by the
    indexer. *)
Lemma paginated_getPoolHistory_fields
    (X : Externals) (id : string) (page count : option Z)
    (order : option Order) (w : World) (entries : list TypesAdapter.PoolHistory) :
  fst (TypesAdapter.getPoolHistory X id page count order w) = Ok entries ->
  exists nftTxs,
    In (Ok nftTxs) (map (nth_reply reply_assetTxs w)
                      (seq 0 (Z.to_nat (match page with
                                        | Some p => p
                                        | None => 1
                                        end)))) /\
    entries = map (fun tx => {| TypesAdapter.txHash := tx_hash tx;
                                TypesAdapter.time := Date_new (timestamp tx) |})
                  (atx_data nftTxs).
Proof.
  unfold TypesAdapter.getPoolHistory, bind.
  set (N := match page with Some p => p | None => 1 end).
  set (q := {| q_count := _; q_order := _; q_cursor := _ |}).
  set (nft := (POOL_NFT_POLICY_ID X ++ id)%string).
  destruct (paginate_loop_result atx_next_cursor reply_assetTxs CallAssetTxs
              nft N (Z.to_nat (N - 0)) 0 EmptyObject (CString EmptyString) q w (le_n _))
    as [Herr | [Hsame | (k & r & Hk & Hr & Hres)]].
  - unfold TypesAdapter.getPaginatedAssetTx, paginate.
    destruct Herr as [e He].
    destruct (paginate_loop _ _ _ _ _ _ _ _ _) as [res w']. cbn in He.
    subst res. discriminate.
  - unfold TypesAdapter.getPaginatedAssetTx, paginate.
    destruct (paginate_loop _ _ _ _ _ _ _ _ _) as [res w']. cbn in Hsame.
    subst res. discriminate.
  - unfold TypesAdapter.getPaginatedAssetTx, paginate.
    destruct (paginate_loop _ _ _ _ _ _ _ _ _) as [res w']. cbn in Hres.
    subst res. cbn. intros H. inversion H; subst entries.
    exists r. split; [| reflexivity].
    apply in_map_iff. exists k. split; [exact Hr |].
    apply in_seq. rewrite Z.sub_0_r in Hk. lia.
Qed.

(** [src/maestro-adapter.ts]: the hash and the timestamp of every entry are
    those of the matching entry of the reply, and the block height and the
    index are the same two numbers whatever the reply. *)
Lemma getPoolHistory_fields
    (X : Externals) (id : string) (count : option Z) (order : option Order)
    (w : World) (nftTxs : PaginatedAssetTx) :
  nth_reply reply_assetTxs w 0 = Ok nftTxs ->
  exists entries,
    fst (MaestroAdapter.getPoolHistory X id count order w) = Ok entries /\
    map MaestroAdapter.txHash entries = map tx_hash (atx_data nftTxs) /\
    map MaestroAdapter.time entries = map timestamp (atx_data nftTxs) /\
    Forall (fun e => MaestroAdapter.blockHeight e = 9913642 /\
                     MaestroAdapter.txIndex e = 0) entries.
Proof.
  intros Hr. rewrite nth_reply_0 in Hr.
  unfold MaestroAdapter.getPoolHistory, bind, ret, Api.assetTxs, Api.call.
  rewrite Hr. eexists. split; [reflexivity |].
  rewrite !map_map. cbn. repeat split.
  apply Forall_map. apply Forall_forall. intros tx _. now split.
Qed.

(** C7, on [src/maestro-adapter.ts]: the indexer reports one transaction,
    in slot 5; the entry returned has its hash and timestamp, and a block
    height and an index that the reply does not contain. *)
Theorem getPoolHistory_placeholder_block_height :
  nth_reply reply_assetTxs
    (Examples.fresh (Examples.three_pages CNull CNull)) 0
  = Ok {| atx_data := [ {| tx_hash := "tx1"; slot := 5;
                           timestamp := "2024-01-01 00:00:00" |} ];
          atx_next_cursor := CString "abc" |}
  /\
  fst (MaestroAdapter.getPoolHistory Examples.toy "706f6f6c" None None
         (Examples.fresh (Examples.three_pages CNull CNull)))
  = Ok [ {| MaestroAdapter.txHash := "tx1";
            MaestroAdapter.txIndex := 0;
            MaestroAdapter.blockHeight := 9913642;
            MaestroAdapter.time := "2024-01-01 00:00:00" |} ].
Proof. split; reflexivity. Qed.

(** ** big.js arithmetic and [getPoolPrice] *)

Lemma scale_pos : (0 < inject_Z Big.scale)%Q.
Proof. reflexivity. Qed.

Lemma Qfloor_unique (x : Q) (n : Z) :
  (inject_Z n <= x)%Q -> (x < inject_Z n + 1)%Q -> Qfloor x = n.
Proof.
  intros Hle Hlt.
  pose proof (Qfloor_le x) as H1. pose proof (Qlt_floor x) as H2.
  assert (Ha : (inject_Z n < inject_Z (Qfloor x + 1))%Q) by lra.
  assert (Hb : (inject_Z (Qfloor x) < inject_Z (n + 1))%Q).
  { rewrite inject_Z_plus. change (inject_Z 1) with 1%Q. lra. }
  rewrite <- Zlt_Qlt in Ha, Hb. lia.
Qed.

Lemma Qnum_pos (x : Q) : (0 < x)%Q -> 0 < Qnum x.
Proof. destruct x as [n d]. unfold Qlt. cbn. lia. Qed.

Lemma Qnum_zero (x : Q) : (x == 0)%Q -> Qnum x = 0.
Proof. destruct x as [n d]. unfold Qeq. cbn. lia. Qed.

Lemma units_pos (x : Q) :
  (0 < x)%Q -> Big.units x = Qfloor (x * inject_Z Big.scale + (1 # 2))%Q.
Proof.
  intros Hx. unfold Big.units.
  pose proof (Qnum_pos x Hx) as Hn.
  rewrite (Qabs_pos x); [| lra].
  destruct (Qnum x); lia.
Qed.

Lemma units_zero (x : Q) : (x == 0)%Q -> Big.units x = 0.
Proof. intros Hx. unfold Big.units. now rewrite (Qnum_zero x Hx). Qed.

Lemma round_zero (x : Q) : (x == 0)%Q -> Big.is_zero (Big.round x) = true.
Proof.
  intros Hx. unfold Big.round, Big.is_zero. rewrite (units_zero x Hx).
  reflexivity.
Qed.

Lemma is_zero_true (x : Q) : Big.is_zero x = true <-> (x == 0)%Q.
Proof. unfold Big.is_zero. apply Qeq_bool_iff. Qed.

Lemma is_zero_false (x : Q) : Big.is_zero x = false <-> ~ (x == 0)%Q.
Proof.
  rewrite <- is_zero_true. destruct (Big.is_zero x); split; congruence.
Qed.

Lemma units_nonneg (x : Q) : (0 <= x)%Q -> 0 <= Big.units x.
Proof.
  intros Hx. destruct (Qlt_le_dec 0 x) as [Hpos | Hle].
  - rewrite units_pos by exact Hpos.
    assert (H : Qfloor 0 <= Qfloor (x * inject_Z Big.scale + (1 # 2))%Q).
    { apply Qfloor_resp_le. pose proof scale_pos. nra. }
    exact H.
  - rewrite units_zero; [lia | lra].
Qed.

Lemma round_nonneg (x : Q) : (0 <= x)%Q -> (0 <= Big.round x)%Q.
Proof.
  intros Hx. unfold Big.round.
  apply Qle_shift_div_l; [exact scale_pos |].
  rewrite Qmult_0_l. rewrite <- (Zle_Qle 0). now apply units_nonneg.
Qed.

(** The integer nearest to a positive [x * 10^DP], ties upwards. *)
Lemma round_pos_bounds (x : Q) :
  (0 < x)%Q ->
  (inject_Z (Big.units x) <= x * inject_Z Big.scale + (1 # 2))%Q /\
  (x * inject_Z Big.scale + (1 # 2) < inject_Z (Big.units x) + 1)%Q.
Proof.
  intros Hx. rewrite (units_pos x Hx). split.
  - apply Qfloor_le.
  - pose proof (Qlt_floor (x * inject_Z Big.scale + (1 # 2))) as H.
    rewrite inject_Z_plus in H. exact H.
Qed.

Lemma product_of_rounded (x y : Q) (P Q' : Z) (S : Q) :
  (0 < S)%Q -> (x * y == 1)%Q -> (0 < x)%Q -> (0 < y)%Q ->
  0 <= P -> 0 <= Q' ->
  (inject_Z P <= x * S + (1 # 2))%Q -> (x * S + (1 # 2) < inject_Z P + 1)%Q ->
  (inject_Z Q' <= y * S + (1 # 2))%Q -> (y * S + (1 # 2) < inject_Z Q' + 1)%Q ->
  (Qabs (4 * (inject_Z P * inject_Z Q' - S * S)) <= 2 * inject_Z P + 2 * inject_Z Q' + 1)%Q.
Proof.
  intros HS Hxy Hx Hy HP HQ HP1 HP2 HQ1 HQ2.
  rewrite (Zle_Qle 0 P) in HP. rewrite (Zle_Qle 0 Q') in HQ.
  set (p := inject_Z P) in *. set (q := inject_Z Q') in *.
  change (inject_Z 0) with 0%Q in *.
  set (u := (p - x * S)%Q). set (v := (q - y * S)%Q).
  assert (Hu : (- (1#2) < u /\ u <= 1#2)%Q) by (unfold u; split; lra).
  assert (Hv : (- (1#2) < v /\ v <= 1#2)%Q) by (unfold v; split; lra).
  assert (Heq : (p * q - S * S == p * v + q * u - u * v)%Q).
  { unfold u, v. 
    assert (E : (S * S == (x * y) * (S * S))%Q) by (rewrite Hxy; ring).
    rewrite E at 1. ring. }
  apply Qabs_Qle_condition. rewrite Heq.
  split; nra.
Qed.

Lemma Qabs_inject_Z (z : Z) : Qabs (inject_Z z) = inject_Z (Z.abs z).
Proof. reflexivity. Qed.

Lemma round_ratio_product (a b : Q) :
  (0 < a)%Q -> (0 < b)%Q ->
  (Qabs (Big.round (a / b) * Big.round (b / a) - 1)
   <= (Big.round (a / b) + Big.round (b / a)) * (1 # 2) / inject_Z Big.scale)%Q.
Proof.
  intros Ha Hb.
  assert (Hx : (0 < a / b)%Q) by (apply Qlt_shift_div_l; lra).
  assert (Hy : (0 < b / a)%Q) by (apply Qlt_shift_div_l; lra).
  assert (Hxy : ((a / b) * (b / a) == 1)%Q) by (field; split; lra).
  destruct (round_pos_bounds _ Hx) as [HP1 HP2].
  destruct (round_pos_bounds _ Hy) as [HQ1 HQ2].
  pose proof (units_nonneg (a / b) ltac:(lra)) as HP.
  pose proof (units_nonneg (b / a) ltac:(lra)) as HQ.
  pose proof (product_of_rounded _ _ _ _ _ scale_pos Hxy Hx Hy HP HQ
                HP1 HP2 HQ1 HQ2) as Hprod.
  unfold Big.round.
  set (P := Big.units (a / b)) in *. set (Q' := Big.units (b / a)) in *.
  assert (HZ : 2 * Z.abs (P * Q' - Big.scale * Big.scale) <= P + Q').
  { assert (E : (4 * (inject_Z P * inject_Z Q'
                      - inject_Z Big.scale * inject_Z Big.scale)
                 == inject_Z (4 * (P * Q' - Big.scale * Big.scale)))%Q).
    { unfold Z.sub.
      rewrite !inject_Z_mult, inject_Z_plus, inject_Z_opp, !inject_Z_mult.
      change (inject_Z 4) with 4%Q. ring. }
    rewrite E, Qabs_inject_Z in Hprod.
    assert (E2 : (2 * inject_Z P + 2 * inject_Z Q' + 1
                  == inject_Z (2 * P + 2 * Q' + 1))%Q).
    { rewrite !inject_Z_plus, !inject_Z_mult. reflexivity. }
    rewrite E2, <- Zle_Qle in Hprod. lia. }
  pose proof scale_pos as HS.
  set (S := inject_Z Big.scale) in *.
  assert (HSS : (0 < / (S * S))%Q) by (apply Qinv_lt_0_compat; nra).
  assert (E1 : (inject_Z P / S * (inject_Z Q' / S) - 1
                == inject_Z (P * Q' - Big.scale * Big.scale) * / (S * S))%Q).
  { unfold Z.sub. rewrite inject_Z_plus, inject_Z_opp, !inject_Z_mult.
    fold S. field. lra. }
  assert (E2 : ((inject_Z P / S + inject_Z Q' / S) * (1 # 2) / S
                == (inject_Z (P + Q') * (1 # 2)) * / (S * S))%Q).
  { rewrite inject_Z_plus. field. lra. }
  rewrite E1, E2, Qabs_Qmult, (Qabs_pos (/ (S * S))) by lra.
  apply Qmult_le_compat_r; [| lra].
  rewrite Qabs_inject_Z.
  assert (H2 : (inject_Z (2 * Z.abs (P * Q' - Big.scale * Big.scale))
                <= inject_Z (P + Q'))%Q) by (now rewrite <- Zle_Qle).
  rewrite inject_Z_mult in H2. change (inject_Z 2) with 2%Q in H2. lra.
Qed.

Lemma div_cases (x y : Big.t) :
  (Big.div x y = Err BigDivisionByZero /\ (y == 0)%Q) \/
  (Big.div x y = Ok (Big.round (x / y)) /\ ~ (y == 0)%Q).
Proof.
  unfold Big.div. destruct (Big.is_zero y) eqn:E.
  - left. split; [reflexivity | now apply is_zero_true].
  - right. split; [reflexivity | now apply is_zero_false].
Qed.

Lemma ten_power_pos (k : Z) : (0 < Big.of_Z 10 ^ k)%Q.
Proof. apply Qpower_0_lt. reflexivity. Qed.

Lemma pow_ten_cases (d : Z) :
  (Big.pow (Big.of_Z 10) d = Err BigInvalidExponent /\
   (d < - Big.MAX_POWER \/ Big.MAX_POWER < d)) \/
  (exists t, Big.pow (Big.of_Z 10) d = Ok t /\ (0 <= t)%Q /\
             - Big.MAX_POWER <= d <= Big.MAX_POWER).
Proof.
  unfold Big.pow.
  destruct (Z.ltb_spec d (- Big.MAX_POWER)) as [H1 | H1]; cbn [orb].
  { left. split; [reflexivity | now left]. }
  destruct (Z.ltb_spec Big.MAX_POWER d) as [H2 | H2].
  { left. split; [reflexivity | now right]. }
  right. destruct (Z.ltb_spec d 0) as [H3 | H3].
  - destruct (div_cases (Big.of_Z 1) (Qpower (Big.of_Z 10) (- d))) as [[_ H0] | [-> _]].
    + pose proof (ten_power_pos (- d)). lra.
    + eexists. split; [reflexivity |]. split; [| lia].
      apply round_nonneg. apply Qle_shift_div_l; [apply ten_power_pos |].
      rewrite Qmult_0_l. discriminate.
  - eexists. split; [reflexivity |]. split; [| lia].
    apply Qlt_le_weak, ten_power_pos.
Qed.

Lemma pow_ten_nonneg_exponent (d : Z) :
  0 <= d <= Big.MAX_POWER ->
  Big.pow (Big.of_Z 10) d = Ok (inject_Z 10 ^ d)%Q.
Proof.
  intros Hd. unfold Big.pow.
  destruct (Z.ltb_spec d (- Big.MAX_POWER)) as [H1 | H1];
    [unfold Big.MAX_POWER in *; lia |].
  destruct (Z.ltb_spec Big.MAX_POWER d) as [H2 | H2]; [lia |].
  destruct (Z.ltb_spec d 0) as [H3 | H3]; [lia |]. reflexivity.
Qed.

Lemma getPoolPrice_supplied (pool : PoolState) (dA dB : Z) (w : World) :
  MaestroAdapter.getPoolPrice pool (Some dA) (Some dB) w
  = (price_pair (reserveA pool) (reserveB pool) dA dB, w).
Proof.
  unfold MaestroAdapter.getPoolPrice, price_pair, bind, lift, ret.
  destruct (Big.pow (Big.of_Z 10) dA) as [tenA | e]; cbn; [| reflexivity].
  destruct (Big.div (Big.of_Z (reserveA pool)) tenA) as [adjA | e]; cbn;
    [| reflexivity].
  destruct (Big.pow (Big.of_Z 10) dB) as [tenB | e]; cbn; [| reflexivity].
  destruct (Big.div (Big.of_Z (reserveB pool)) tenB) as [adjB | e]; cbn;
    [| reflexivity].
  destruct (Big.div adjA adjB) as [pAB | e]; cbn; [| reflexivity].
  destruct (Big.div adjB adjA) as [pBA | e]; cbn; reflexivity.
Qed.

(** Whatever way the decimals are obtained, the prices returned are those
    of [price_pair] at some pair of decimals. *)
Lemma getPoolPrice_resolves (pool : PoolState) (decimalsA decimalsB : option Z)
    (w : World) :
  (exists e, fst (MaestroAdapter.getPoolPrice pool decimalsA decimalsB w)
             = Err e) \/
  (exists dA dB,
     fst (MaestroAdapter.getPoolPrice pool decimalsA decimalsB w)
     = price_pair (reserveA pool) (reserveB pool) dA dB).
Proof.
  set (resolveA := match decimalsA with
                   | None => MaestroAdapter.getAssetDecimals (assetA pool)
                   | Some d => ret d
                   end).
  set (resolveB := match decimalsB with
                   | None => MaestroAdapter.getAssetDecimals (assetB pool)
                   | Some d => ret d
                   end).
  assert (E : MaestroAdapter.getPoolPrice pool decimalsA decimalsB w
              = match resolveA w with
                | (Err e, w1) => (Err e, w1)
                | (Ok dA, w1) =>
                    match resolveB w1 with
                    | (Err e, w2) => (Err e, w2)
                    | (Ok dB, w2) =>
                        MaestroAdapter.getPoolPrice pool (Some dA) (Some dB) w2
                    end
                end).
  { unfold MaestroAdapter.getPoolPrice. fold resolveA resolveB.
    unfold bind at 1. destruct (resolveA w) as [[dA | e] w1]; [| reflexivity].
    unfold bind at 1. destruct (resolveB w1) as [[dB | e] w2]; reflexivity. }
  rewrite E.
  destruct (resolveA w) as [[dA | e] w1]; [| left; now exists e].
  destruct (resolveB w1) as [[dB | e] w2]; [| left; now exists e].
  right. exists dA, dB. now rewrite getPoolPrice_supplied.
Qed.

(** The three ways [price_pair] can end. *)
Lemma price_pair_cases (rA rB dA dB : Z) :
  (price_pair rA rB dA dB = Err BigInvalidExponent /\
   ~ (- Big.MAX_POWER <= dA <= Big.MAX_POWER /\
      - Big.MAX_POWER <= dB <= Big.MAX_POWER)) \/
  price_pair rA rB dA dB = Err BigDivisionByZero \/
  (exists tenA tenB,
     (0 < tenA)%Q /\ (0 < tenB)%Q /\
     Big.pow (Big.of_Z 10) dA = Ok tenA /\
     Big.pow (Big.of_Z 10) dB = Ok tenB /\
     ~ (Big.round (inject_Z rA / tenA) == 0)%Q /\
     ~ (Big.round (inject_Z rB / tenB) == 0)%Q /\
     price_pair rA rB dA dB
     = Ok (Big.round (Big.round (inject_Z rA / tenA)
                      / Big.round (inject_Z rB / tenB)),
           Big.round (Big.round (inject_Z rB / tenB)
                      / Big.round (inject_Z rA / tenA)))).
Proof.
  unfold price_pair.
  destruct (pow_ten_cases dA) as [[-> HA] | (tenA & HpA & HtA & HrA)];
    [left; split; [reflexivity | lia] |].
  rewrite HpA. cbn [result_bind].
  destruct (div_cases (Big.of_Z rA) tenA) as [[-> _] | [-> HnA]];
    [right; left; reflexivity |].
  cbn [result_bind].
  destruct (pow_ten_cases dB) as [[-> HB] | (tenB & HpB & HtB & HrB)];
    [left; split; [reflexivity | lia] |].
  rewrite HpB. cbn [result_bind].
  destruct (div_cases (Big.of_Z rB) tenB) as [[-> _] | [-> HnB]];
    [right; left; reflexivity |].
  cbn [result_bind].
  destruct (div_cases (Big.round (Big.of_Z rA / tenA))
              (Big.round (Big.of_Z rB / tenB))) as [[-> _] | [-> HadjB]];
    [right; left; reflexivity |].
  cbn [result_bind].
  destruct (div_cases (Big.round (Big.of_Z rB / tenB))
              (Big.round (Big.of_Z rA / tenA))) as [[-> _] | [-> HadjA]];
    [right; left; reflexivity |].
  cbn [result_bind].
  right; right. exists tenA, tenB.
  repeat split; try assumption; try reflexivity; lra.
Qed.

Lemma round_of_zero_dividend (y : Q) : (Big.round (inject_Z 0 / y) == 0)%Q.
Proof. apply is_zero_true, round_zero. unfold Qdiv. apply Qmult_0_l. Qed.

Lemma price_pair_zero_reserve (rA rB dA dB : Z) :
  rA = 0 \/ rB = 0 ->
  (exists e, price_pair rA rB dA dB = Err e) /\
  (- Big.MAX_POWER <= dA <= Big.MAX_POWER ->
   - Big.MAX_POWER <= dB <= Big.MAX_POWER ->
   price_pair rA rB dA dB = Err BigDivisionByZero).
Proof.
  intros Hzero.
  destruct (price_pair_cases rA rB dA dB)
    as [[He Hr] | [He | (tenA & tenB & _ & _ & _ & _ & HnA & HnB & _)]].
  - split; [eexists; exact He | tauto].
  - split; [eexists; exact He | intros _ _; exact He].
  - exfalso. destruct Hzero as [-> | ->].
    + apply HnA, round_of_zero_dividend.
    + apply HnB, round_of_zero_dividend.
Qed.

Lemma round_pos (x : Q) :
  (0 <= x)%Q -> ~ (Big.round x == 0)%Q -> (0 < Big.round x)%Q.
Proof.
  intros Hx Hn. pose proof (round_nonneg x Hx) as H.
  destruct (Qlt_le_dec 0 (Big.round x)) as [Hlt | Hle]; [exact Hlt |].
  elim Hn. lra.
Qed.

Lemma price_pair_returns (rA rB dA dB : Z) (pAB pBA : Big.t) :
  0 < rA -> 0 < rB ->
  price_pair rA rB dA dB = Ok (pAB, pBA) ->
  exists a b,
    (0 < a)%Q /\ (0 < b)%Q /\
    pAB = Big.round (a / b) /\ pBA = Big.round (b / a).
Proof.
  intros HA HB Hret.
  destruct (price_pair_cases rA rB dA dB)
    as [[He _] | [He | (tenA & tenB & HtA & HtB & _ & _ & HnA & HnB & Hp)]];
    try congruence.
  rewrite Hp in Hret. inversion Hret; subst pAB pBA.
  exists (Big.round (inject_Z rA / tenA)), (Big.round (inject_Z rB / tenB)).
  assert (HqA : (0 < inject_Z rA)%Q) by (now rewrite <- (Zlt_Qlt 0)).
  assert (HqB : (0 < inject_Z rB)%Q) by (now rewrite <- (Zlt_Qlt 0)).
  repeat split.
  - apply round_pos; [| exact HnA].
    apply Qlt_le_weak, Qlt_shift_div_l; lra.
  - apply round_pos; [| exact HnB].
    apply Qlt_le_weak, Qlt_shift_div_l; lra.
Qed.

Lemma round_exact (x : Q) (n : Z) :
  (0 < x)%Q -> (x * inject_Z Big.scale == inject_Z n)%Q ->
  (Big.round x == x)%Q.
Proof.
  intros Hx HxS. unfold Big.round. rewrite (units_pos x Hx).
  rewrite (Qfloor_unique _ n).
  - rewrite <- HxS. field. pose proof scale_pos. lra.
  - rewrite HxS. lra.
  - rewrite HxS. lra.
Qed.

(** With at most 20 decimals the adjusted reserve needs no rounding. *)
Lemma round_exact_adjusted (r d : Z) :
  0 < r -> 0 <= d <= 20 ->
  (Big.round (exact_adjusted r d) == exact_adjusted r d)%Q.
Proof.
  intros Hr Hd.
  assert (HT : (inject_Z 10 ^ d == inject_Z (10 ^ d))%Q)
    by (symmetry; apply Zpower_Qpower; lia).
  assert (HTpos : (0 < inject_Z (10 ^ d))%Q)
    by (rewrite <- (Zlt_Qlt 0); apply Z.pow_pos_nonneg; lia).
  assert (HS : (inject_Z Big.scale
                == inject_Z (10 ^ d) * inject_Z (10 ^ (20 - d)))%Q).
  { rewrite <- inject_Z_mult, <- Z.pow_add_r by lia.
    replace (d + (20 - d)) with 20 by lia. reflexivity. }
  assert (Hq : (0 < inject_Z r)%Q) by (now rewrite <- (Zlt_Qlt 0)).
  apply (round_exact _ (r * 10 ^ (20 - d))).
  - unfold exact_adjusted. rewrite HT. apply Qlt_shift_div_l; lra.
  - unfold exact_adjusted. rewrite HT, HS, inject_Z_mult. field. lra.
Qed.

Lemma exact_adjusted_pos (r d : Z) : 0 < r -> (0 < exact_adjusted r d)%Q.
Proof.
  intros Hr. unfold exact_adjusted.
  assert (Hq : (0 < inject_Z r)%Q) by (now rewrite <- (Zlt_Qlt 0)).
  pose proof (ten_power_pos d) as Hp. unfold Big.of_Z in Hp.
  apply Qlt_shift_div_l; lra.
Qed.

Lemma price_pair_in_range (rA rB dA dB : Z) :
  0 < rA -> 0 < rB -> 0 <= dA <= 20 -> 0 <= dB <= 20 ->
  price_pair rA rB dA dB
  = Ok (Big.round (Big.round (exact_adjusted rA dA)
                   / Big.round (exact_adjusted rB dB)),
        Big.round (Big.round (exact_adjusted rB dB)
                   / Big.round (exact_adjusted rA dA))).
Proof.
  intros HA HB HdA HdB. unfold price_pair.
  pose proof (exact_adjusted_pos rA dA HA) as HxA.
  pose proof (exact_adjusted_pos rB dB HB) as HxB.
  pose proof (round_exact_adjusted rA dA HA HdA) as HeA.
  pose proof (round_exact_adjusted rB dB HB HdB) as HeB.
  pose proof (ten_power_pos dA) as HpA. pose proof (ten_power_pos dB) as HpB.
  unfold Big.of_Z in HpA, HpB.
  rewrite !pow_ten_nonneg_exponent by (unfold Big.MAX_POWER; lia).
  cbn [result_bind].
  destruct (div_cases (Big.of_Z rA) (inject_Z 10 ^ dA)%Q) as [[_ H0] | [-> _]];
    [lra |].
  cbn [result_bind].
  destruct (div_cases (Big.of_Z rB) (inject_Z 10 ^ dB)%Q) as [[_ H0] | [-> _]];
    [lra |].
  cbn [result_bind].
  change (Big.of_Z rA / inject_Z 10 ^ dA)%Q with (exact_adjusted rA dA).
  change (Big.of_Z rB / inject_Z 10 ^ dB)%Q with (exact_adjusted rB dB).
  destruct (div_cases (Big.round (exact_adjusted rA dA))
              (Big.round (exact_adjusted rB dB))) as [[_ H0] | [-> _]];
    [lra |].
  cbn [result_bind].
  destruct (div_cases (Big.round (exact_adjusted rB dB))
              (Big.round (exact_adjusted rA dA))) as [[_ H0] | [-> _]];
    [lra |].
  reflexivity.
Qed.

(** Rounding a positive number: the result is [half_up_20] of any equal
    number and lies within half a unit of the last place. *)
Lemma round_half_up (x y : Q) :
  (0 < x)%Q -> (x == y)%Q ->
  (Big.round x == half_up_20 y)%Q /\ (Qabs (Big.round x - y) <= half_unit_20)%Q.
Proof.
  intros Hx Hxy.
  destruct (round_pos_bounds x Hx) as [H1 H2].
  assert (E : (Big.round x == half_up_20 y)%Q).
  { unfold Big.round, half_up_20. rewrite (units_pos x Hx).
    change (inject_Z (10 ^ 20)) with (inject_Z Big.scale).
    now rewrite Hxy. }
  split; [exact E |].
  unfold half_unit_20. change (inject_Z (10 ^ 20)) with (inject_Z Big.scale).
  pose proof scale_pos as HS.
  set (S := inject_Z Big.scale) in *.
  apply Qabs_Qle_condition.
  assert (Er : (Big.round x - y == (inject_Z (Big.units x) - x * S) / S)%Q).
  { unfold Big.round. fold S. rewrite <- Hxy. field. lra. }
  rewrite Er. split.
  - apply Qle_shift_div_l; [exact HS |].
    assert (E2 : (- ((1 # 2) / S) * S == - (1 # 2))%Q) by (field; lra).
    rewrite E2. lra.
  - apply Qle_shift_div_r; [exact HS |].
    assert (E2 : ((1 # 2) / S * S == 1 # 2)%Q) by (field; lra).
    rewrite E2. lra.
Qed.

(** C3, as amended. For every pool with positive reserves: whenever
    [getPoolPrice] returns [[priceAB, priceBA]], the product of the two
    differs from 1 by at most half a unit of the 20th decimal place times
    [priceAB + priceBA]; and it does return when the decimals are supplied
    and lie between 0 and 20. *)
Theorem getPoolPrice_product_near_one
    (pool : PoolState) (decimalsA decimalsB : option Z) (w : World) :
  0 < reserveA pool -> 0 < reserveB pool ->
  (forall pAB pBA w',
     MaestroAdapter.getPoolPrice pool decimalsA decimalsB w
     = (Ok (pAB, pBA), w') ->
     (Qabs (pAB * pBA - 1) <= (pAB + pBA) * half_unit_20)%Q)
  /\
  (forall dA dB,
     decimalsA = Some dA -> decimalsB = Some dB ->
     0 <= dA <= 20 -> 0 <= dB <= 20 ->
     exists pAB pBA,
       MaestroAdapter.getPoolPrice pool decimalsA decimalsB w
       = (Ok (pAB, pBA), w)).
Proof.
  intros HA HB. split.
  - intros pAB pBA w' Hret.
    destruct (getPoolPrice_resolves pool decimalsA decimalsB w)
      as [[e He] | (dA & dB & Hp)];
      rewrite Hret in *; cbn [fst] in *; [discriminate |].
    destruct (price_pair_returns _ _ _ _ _ _ HA HB (eq_sym Hp))
      as (a & b & Ha & Hb & -> & ->).
    pose proof (round_ratio_product a b Ha Hb) as H.
    unfold half_unit_20. change (inject_Z (10 ^ 20)) with (inject_Z Big.scale).
    unfold Qdiv in *. now rewrite Qmult_assoc.
  - intros dA dB -> -> HdA HdB.
    rewrite getPoolPrice_supplied, price_pair_in_range by assumption.
    eexists. eexists. reflexivity.
Qed.

(** C4, as amended. For every pool with positive reserves and supplied
    decimals between 0 and 20, [getPoolPrice] returns as first component
    [(reserveA / 10^dA) / (reserveB / 10^dB)] rounded half up to 20 decimal
    places and as second component the inverse ratio rounded the same way;
    each is within half a unit of the 20th decimal place of the exact
    ratio. *)
Theorem getPoolPrice_rounded_ratios
    (pool : PoolState) (dA dB : Z) (w : World) :
  0 < reserveA pool -> 0 < reserveB pool ->
  0 <= dA <= 20 -> 0 <= dB <= 20 ->
  exists pAB pBA,
    MaestroAdapter.getPoolPrice pool (Some dA) (Some dB) w
    = (Ok (pAB, pBA), w) /\
    (pAB == half_up_20 (exact_adjusted (reserveA pool) dA
                        / exact_adjusted (reserveB pool) dB))%Q /\
    (pBA == half_up_20 (exact_adjusted (reserveB pool) dB
                        / exact_adjusted (reserveA pool) dA))%Q /\
    (Qabs (pAB - exact_adjusted (reserveA pool) dA
                 / exact_adjusted (reserveB pool) dB) <= half_unit_20)%Q /\
    (Qabs (pBA - exact_adjusted (reserveB pool) dB
                 / exact_adjusted (reserveA pool) dA) <= half_unit_20)%Q.
Proof.
  intros HA HB HdA HdB.
  rewrite getPoolPrice_supplied, price_pair_in_range by assumption.
  pose proof (exact_adjusted_pos _ dA HA) as HxA.
  pose proof (exact_adjusted_pos _ dB HB) as HxB.
  pose proof (round_exact_adjusted _ dA HA HdA) as HeA.
  pose proof (round_exact_adjusted _ dB HB HdB) as HeB.
  set (x := exact_adjusted (reserveA pool) dA) in *.
  set (y := exact_adjusted (reserveB pool) dB) in *.
  assert (Hab : (0 < Big.round x / Big.round y)%Q)
    by (apply Qlt_shift_div_l; lra).
  assert (Hba : (0 < Big.round y / Big.round x)%Q)
    by (apply Qlt_shift_div_l; lra).
  assert (Eab : (Big.round x / Big.round y == x / y)%Q)
    by (now rewrite HeA, HeB).
  assert (Eba : (Big.round y / Big.round x == y / x)%Q)
    by (now rewrite HeA, HeB).
  destruct (round_half_up _ _ Hab Eab) as [H1 H2].
  destruct (round_half_up _ _ Hba Eba) as [H3 H4].
  eexists. eexists. split; [reflexivity |]. repeat split; assumption.
Qed.

(** C10. For every pool in which [reserveA] or [reserveB] is zero,
    [getPoolPrice] throws and returns no pair of prices, however the
    decimals are obtained; with supplied decimals that [pow] accepts, what
    it throws is the division by zero of big.js. *)
Theorem getPoolPrice_zero_reserve
    (pool : PoolState) (decimalsA decimalsB : option Z) (w : World) :
  reserveA pool = 0 \/ reserveB pool = 0 ->
  (exists e,
     fst (MaestroAdapter.getPoolPrice pool decimalsA decimalsB w) = Err e)
  /\
  (forall dA dB,
     decimalsA = Some dA -> decimalsB = Some dB ->
     - Big.MAX_POWER <= dA <= Big.MAX_POWER ->
     - Big.MAX_POWER <= dB <= Big.MAX_POWER ->
     MaestroAdapter.getPoolPrice pool decimalsA decimalsB w
     = (Err BigDivisionByZero, w)).
Proof.
  intros Hzero. split.
  - destruct (getPoolPrice_resolves pool decimalsA decimalsB w)
      as [He | (dA & dB & Hp)]; [exact He |].
    rewrite Hp.
    exact (proj1 (price_pair_zero_reserve _ _ dA dB Hzero)).
  - intros dA dB -> -> HdA HdB. rewrite getPoolPrice_supplied.
    now rewrite (proj2 (price_pair_zero_reserve _ _ dA dB Hzero) HdA HdB).
Qed.

(** C3, as stated, fails: one lovelace against [10^15] tokens, with 6 and
    0 decimals. The first price rounds to zero, the product of the two is
    0 and is not within any tolerance below 1 of 1. And with 21 decimals a
    reserve of 1 is adjusted to zero, so that no pair is returned at all. *)
Lemma getPoolPrice_product_counterexample :
  let w :=
    Examples.fresh (Examples.asset_info_replies (Err (UpstreamError "404"))) in
  (exists pAB pBA,
     0 < reserveA (Examples.pool_with 1 1000000000000000) /\
     0 < reserveB (Examples.pool_with 1 1000000000000000) /\
     MaestroAdapter.getPoolPrice (Examples.pool_with 1 1000000000000000)
       (Some 6) (Some 0) w
     = (Ok (pAB, pBA), w) /\
     (pAB * pBA == 0)%Q /\
     forall eps : Q, (eps < 1)%Q -> ~ (Qabs (pAB * pBA - 1) <= eps)%Q)
  /\
  MaestroAdapter.getPoolPrice (Examples.pool_with 1 1) (Some 21) (Some 0) w
  = (Err BigDivisionByZero, w).
Proof.
  intros w. split; [| vm_compute; reflexivity].
  eexists. eexists. split; [reflexivity |]. split; [reflexivity |].
  split; [vm_compute; reflexivity |].
  split; [reflexivity |].
  intros eps Heps H.
  apply Qabs_Qle_condition in H. destruct H as [H _].
  lra.
Qed.

(** C4, as stated, fails: with reserves 1 and 3 and no decimals the first
    price is [0.33333333333333333333], not the ratio [1 / 3]; and with 21
    decimals a reserve of 1 is adjusted to zero and the call throws. *)
Lemma getPoolPrice_ratio_counterexample :
  let w :=
    Examples.fresh (Examples.asset_info_replies (Err (UpstreamError "404"))) in
  (exists pAB pBA,
     MaestroAdapter.getPoolPrice (Examples.pool_with 1 3) (Some 0) (Some 0) w
     = (Ok (pAB, pBA), w) /\
     (pAB == 33333333333333333333 # 100000000000000000000)%Q /\
     ~ (pAB == exact_adjusted 1 0 / exact_adjusted 3 0)%Q)
  /\
  MaestroAdapter.getPoolPrice (Examples.pool_with 1 1) (Some 21) (Some 0) w
  = (Err BigDivisionByZero, w).
Proof.
  intros w. split; [| vm_compute; reflexivity].
  eexists. eexists. split; [vm_compute; reflexivity |].
  split; [reflexivity |].
  intros H. vm_compute in H. discriminate H.
Qed.

(** C3, as amended, at reserves 1 and 3. *)
Lemma getPoolPrice_product_near_one_witness :
  let w :=
    Examples.fresh (Examples.asset_info_replies (Err (UpstreamError "404"))) in
  exists pAB pBA,
    MaestroAdapter.getPoolPrice (Examples.pool_with 1 3) (Some 0) (Some 0) w
    = (Ok (pAB, pBA), w) /\
    (Qabs (pAB * pBA - 1) <= (pAB + pBA) * half_unit_20)%Q.
Proof.
  intros w.
  destruct (getPoolPrice_product_near_one (Examples.pool_with 1 3)
              (Some 0) (Some 0) w) as [Hbound Hret]; [reflexivity .. |].
  destruct (Hret 0 0 eq_refl eq_refl) as (pAB & pBA & Hp); [lia .. |].
  exists pAB, pBA. split; [exact Hp | exact (Hbound _ _ _ Hp)].
Defined.

(** C4, as amended, at two ADA against three tokens. *)
Lemma getPoolPrice_rounded_ratios_witness :
  let w :=
    Examples.fresh (Examples.asset_info_replies (Err (UpstreamError "404"))) in
  exists pAB pBA,
    MaestroAdapter.getPoolPrice (Examples.pool_with 2000000 3) (Some 6)
      (Some 0) w
    = (Ok (pAB, pBA), w) /\
    (pAB == half_up_20 (exact_adjusted 2000000 6 / exact_adjusted 3 0))%Q /\
    (Qabs (pAB - exact_adjusted 2000000 6 / exact_adjusted 3 0)
     <= half_unit_20)%Q.
Proof.
  intros w.
  destruct (getPoolPrice_rounded_ratios (Examples.pool_with 2000000 3) 6 0 w)
    as (pAB & pBA & Hp & HAB & _ & HerrAB & _);
    [reflexivity | reflexivity | lia | lia |].
  exists pAB, pBA. repeat split; assumption.
Defined.

(** C10 at an empty first reserve and at an empty second reserve. *)
Lemma getPoolPrice_zero_reserve_witness :
  let w :=
    Examples.fresh (Examples.asset_info_replies (Err (UpstreamError "404"))) in
  MaestroAdapter.getPoolPrice (Examples.pool_with 0 5) (Some 6) (Some 0) w
  = (Err BigDivisionByZero, w)
  /\ exists e,
       fst (MaestroAdapter.getPoolPrice (Examples.pool_with 5 0) None None w)
       = Err e.
Proof.
  intros w. split.
  - destruct (getPoolPrice_zero_reserve (Examples.pool_with 0 5)
                (Some 6) (Some 0) w) as [_ H]; [now left |].
    apply (H 6 0); [reflexivity | reflexivity | | ];
      unfold Big.MAX_POWER; lia.
  - destruct (getPoolPrice_zero_reserve (Examples.pool_with 5 0)
                None None w) as [H _]; [now right |].
    exact H.
Defined.

(** * Further properties

    Of the pagination helpers and their callers, of the pool lookups and of
    the price computation. *)

(** ** Pagination *)

Section PaginationMore.
Context {R : Type}.
Variable next_cursor : R -> Cursor.
Variable reply : Upstream -> nat -> result R.
Variable request : string -> QueryParams -> ApiCall.
Variable param : string.

Local Notation "'endpoint'" := (fun p q => Api.call reply (request p q)).

(** [m] answered calls whose cursors are not [null], then a rejection. *)
Lemma paginate_loop_rejected (page : Z) (m : nat) :
  forall curr res cursor queryParam w e,
    cursor <> CNull ->
    curr + Z.of_nat (S m) <= page ->
    answered reply w m ->
    cursors_not_null next_cursor reply w m ->
    nth_reply reply w m = Err e ->
    exists w' qs,
      paginate_loop next_cursor endpoint param page curr res cursor
        queryParam w = (Err e, w') /\
      upstream w' = upstream w /\
      calls w' = (calls w ++ map (request param) qs)%list /\
      List.length qs = S m.
Proof.
  induction m as [| m IH]; intros curr res cursor queryParam w e Hc Hle Ha Hnn He.
  - exists (sent w (request param (assign_cursor queryParam cursor))),
      [assign_cursor queryParam cursor].
    rewrite paginate_loop_step, (is_null_false _ Hc).
    rewrite (proj2 (Z.ltb_lt curr page)) by lia.
    rewrite nth_reply_0 in He. rewrite He. repeat split; reflexivity.
  - destruct (Ha 0%nat) as [r0 Hr0]; [lia |].
    assert (Hr0c : next_cursor r0 <> CNull)
      by (apply (Hnn 0%nat); [lia | exact Hr0]).
    set (q1 := assign_cursor queryParam cursor).
    set (w1 := sent w (request param q1)).
    destruct (IH (curr + 1) (Obj r0) (next_cursor r0) q1 w1 e)
      as (w' & qs & Hrun & Hup & Hcalls & Hlen).
    + exact Hr0c.
    + lia.
    + intros k Hk. unfold w1. rewrite nth_reply_sent. apply Ha. lia.
    + intros k r Hk. unfold w1. rewrite nth_reply_sent. apply Hnn. lia.
    + unfold w1. rewrite nth_reply_sent. exact He.
    + exists w', (q1 :: qs).
      rewrite paginate_loop_step, (is_null_false _ Hc).
      rewrite (proj2 (Z.ltb_lt curr page)) by lia.
      rewrite nth_reply_0 in Hr0. rewrite Hr0.
      fold q1 w1. rewrite Hrun.
      split; [reflexivity |]. split; [rewrite Hup; reflexivity |].
      split; [| cbn; lia].
      rewrite Hcalls. unfold w1. cbn. rewrite <- app_assoc. reflexivity.
Qed.

Lemma paginate_rejected (page : Z) (k : nat) queryParam w e :
  (1 <= k)%nat -> Z.of_nat k <= page ->
  answered reply w (k - 1) ->
  cursors_not_null next_cursor reply w (k - 1) ->
  nth_reply reply w (k - 1) = Err e ->
  exists w' qs,
    paginate next_cursor endpoint param page queryParam w = (Err e, w') /\
    upstream w' = upstream w /\
    calls w' = (calls w ++ map (request param) qs)%list /\
    List.length qs = k.
Proof.
  intros Hk Hle Ha Hnn He.
  destruct k as [| m]; [lia |].
  replace (S m - 1)%nat with m in * by lia.
  exact (paginate_loop_rejected page m 0 EmptyObject (CString EmptyString)
           queryParam w e ltac:(discriminate) ltac:(lia) Ha Hnn He).
Qed.

(** What a run ends with, by cases: an error is the rejection of one of the
    calls, a result other than the initial [res] is one of the replies, and
    [res] itself comes back only when no call was made. *)
Lemma paginate_loop_outcome (page : Z) (n : nat) :
  forall curr res cursor queryParam w,
    (Z.to_nat (page - curr) <= n)%nat ->
    let out := paginate_loop next_cursor endpoint param page curr res cursor
                 queryParam w in
    (exists k e, (k < Z.to_nat (page - curr))%nat /\
                 nth_reply reply w k = Err e /\ fst out = Err e) \/
    ((page <= curr \/ cursor = CNull) /\ out = (Ok res, w)) \/
    (exists k r, (k < Z.to_nat (page - curr))%nat /\
                 nth_reply reply w k = Ok r /\ fst out = Ok (Obj r)).
Proof.
  induction n as [| n IH]; intros curr res cursor queryParam w Hn; cbn zeta.
  - right; left. split; [left; lia |].
    apply paginate_loop_stops. left; lia.
  - destruct (Z.ltb_spec curr page) as [Hlt | Hge].
    2: { right; left. split; [now left |]. apply paginate_loop_stops. now left. }
    destruct (is_null cursor) eqn:Hnull.
    { right; left. assert (cursor = CNull) as -> by (now destruct cursor).
      split; [now right |]. apply paginate_loop_stops. now right. }
    rewrite paginate_loop_step.
    rewrite (proj2 (Z.ltb_lt curr page) Hlt), Hnull.
    destruct (reply (upstream w) (List.length (calls w))) as [r | e] eqn:Hr;
      rewrite <- nth_reply_0 in Hr.
    2: { left. exists 0%nat, e. repeat split; [lia | exact Hr]. }
    specialize (IH (curr + 1) (Obj r) (next_cursor r)
                  (assign_cursor queryParam cursor)
                  (sent w (request param (assign_cursor queryParam cursor)))
                  ltac:(lia)).
    cbn zeta in IH.
    destruct IH as [(k & e & Hk & He & Hout) | [[_ Hout] | (k & r' & Hk & Hr' & Hout)]].
    + left. exists (S k), e. rewrite nth_reply_sent in He.
      repeat split; [lia | exact He | exact Hout].
    + right; right. exists 0%nat, r. rewrite Hout.
      repeat split; [lia | exact Hr].
    + right; right. exists (S k), r'. rewrite nth_reply_sent in Hr'.
      repeat split; [lia | exact Hr' | exact Hout].
Qed.

Lemma paginate_outcome (page : Z) queryParam w :
  1 <= page ->
  let out := paginate next_cursor endpoint param page queryParam w in
  (exists k e, (k < Z.to_nat page)%nat /\
               nth_reply reply w k = Err e /\ fst out = Err e) \/
  (exists k r, (k < Z.to_nat page)%nat /\
               nth_reply reply w k = Ok r /\ fst out = Ok (Obj r)).
Proof.
  intros Hp. cbn zeta. unfold paginate.
  pose proof (paginate_loop_outcome page (Z.to_nat (page - 0)) 0 EmptyObject
                (CString EmptyString) queryParam w (le_n _)) as H.
  cbn zeta in H. rewrite Z.sub_0_r in H.
  destruct H as [H | [[[H | H] _] | H]]; [now left | lia | discriminate | now right].
Qed.





(** Once a reply carries [null], the page asked for no longer matters. *)
Lemma paginate_loop_page_irrelevant (page page' : Z) (m : nat) :
  forall curr res cursor queryParam w,
    cursor <> CNull ->
    curr + Z.of_nat (S m) <= page ->
    curr + Z.of_nat (S m) <= page' ->
    answered reply w (S m) ->
    cursors_not_null next_cursor reply w m ->
    (exists r, nth_reply reply w m = Ok r /\ next_cursor r = CNull) ->
    paginate_loop next_cursor endpoint param page curr res cursor queryParam w
    = paginate_loop next_cursor endpoint param page' curr res cursor
        queryParam w.
Proof.
  induction m as [| m IH];
    intros curr res cursor queryParam w Hc Hle Hle' Ha Hnn Hnull.
  - destruct Hnull as (r & Hr & Hrnull).
    rewrite !paginate_loop_step, (is_null_false _ Hc).
    rewrite (proj2 (Z.ltb_lt curr page)), (proj2 (Z.ltb_lt curr page')) by lia.
    rewrite nth_reply_0 in Hr. rewrite Hr.
    rewrite !paginate_loop_stops by (now right). reflexivity.
  - destruct (Ha 0%nat) as [r0 Hr0]; [lia |].
    assert (Hr0c : next_cursor r0 <> CNull)
      by (apply (Hnn 0%nat); [lia | exact Hr0]).
    rewrite !paginate_loop_step, (is_null_false _ Hc).
    rewrite (proj2 (Z.ltb_lt curr page)), (proj2 (Z.ltb_lt curr page')) by lia.
    rewrite nth_reply_0 in Hr0. rewrite Hr0.
    apply IH.
    + exact Hr0c.
    + lia.
    + lia.
    + intros k Hk. rewrite nth_reply_sent. apply Ha. lia.
    + intros k r Hk. rewrite nth_reply_sent. apply Hnn. lia.
    + destruct Hnull as (r & Hr & Hrnull). exists r.
      rewrite nth_reply_sent. now split.
Qed.

Lemma paginate_page_irrelevant (page page' : Z) (k : nat) queryParam w :
  (1 <= k)%nat -> Z.of_nat k <= page -> Z.of_nat k <= page' ->
  answered reply w k ->
  cursors_not_null next_cursor reply w (k - 1) ->
  (exists r, nth_reply reply w (k - 1) = Ok r /\ next_cursor r = CNull) ->
  paginate next_cursor endpoint param page queryParam w
  = paginate next_cursor endpoint param page' queryParam w.
Proof.
  intros Hk Hle Hle' Ha Hnn Hnull.
  destruct k as [| m]; [lia |].
  replace (S m - 1)%nat with m in * by lia.
  unfold paginate. apply (paginate_loop_page_irrelevant page page' m);
    try assumption; try discriminate; lia.
Qed.
End PaginationMore.

(** X1. When the [k]-th call of a run is rejected, the calls before it
    having been answered with cursors that are not [null], both helpers
    reject with the same error after exactly [k] requests. *)
Theorem pagination_propagates_rejection
    (N : Z) (k : nat) (param : string) (queryParam : QueryParams) (w : World)
    (e : JsError) :
  (1 <= k)%nat -> Z.of_nat k <= N ->
  (answered reply_assetTxs w (k - 1) ->
   cursors_not_null atx_next_cursor reply_assetTxs w (k - 1) ->
   nth_reply reply_assetTxs w (k - 1) = Err e ->
   exists w' qs,
     TypesAdapter.getPaginatedAssetTx param queryParam N w = (Err e, w') /\
     upstream w' = upstream w /\
     calls w' = (calls w ++ map (CallAssetTxs param) qs)%list /\
     List.length qs = k)
  /\
  (answered reply_utxosByPaymentCred w (k - 1) ->
   cursors_not_null utxo_next_cursor reply_utxosByPaymentCred w (k - 1) ->
   nth_reply reply_utxosByPaymentCred w (k - 1) = Err e ->
   exists w' qs,
     TypesAdapter.getPaginatedUtxosByPaymentCred param queryParam N w
     = (Err e, w') /\
     upstream w' = upstream w /\
     calls w' = (calls w ++ map (CallUtxosByPaymentCred param) qs)%list /\
     List.length qs = k).
Proof.
  intros Hk HN. split; intros Ha Hnn He.
  - exact (paginate_rejected atx_next_cursor reply_assetTxs CallAssetTxs
             param N k queryParam w e Hk HN Ha Hnn He).
  - exact (paginate_rejected utxo_next_cursor reply_utxosByPaymentCred
             CallUtxosByPaymentCred param N k queryParam w e Hk HN Ha Hnn He).
Qed.

Lemma pagination_propagates_rejection_witness :
  let w :=
    Examples.fresh (Examples.asset_info_replies (Err (UpstreamError "404"))) in
  exists w' qs,
    TypesAdapter.getPaginatedAssetTx "nft" Examples.q0 3 w
    = (Err (UpstreamError "connection refused"), w') /\
    calls w' = map (CallAssetTxs "nft") qs /\
    List.length qs = 1%nat.
Proof.
  intros w.
  destruct (pagination_propagates_rejection 3 1 "nft" Examples.q0 w
              (UpstreamError "connection refused")) as [H _];
    [lia | lia |].
  destruct H as (w' & qs & Hrun & _ & Hcalls & Hlen).
  - intros k Hk. cbn in Hk. lia.
  - intros k r Hk. cbn in Hk. lia.
  - reflexivity.
  - exists w', qs. repeat split; assumption.
Defined.

(** X2. For every page number [N >= 1] the outcome of a helper is the
    outcome of one of its first [N] calls: the rejection of a call or the
    reply to a call; the empty object is never returned. *)
Theorem pagination_result_is_a_reply
    (N : Z) (param : string) (queryParam : QueryParams) (w : World) :
  1 <= N ->
  ((exists k e, (k < Z.to_nat N)%nat /\
      nth_reply reply_assetTxs w k = Err e /\
      fst (TypesAdapter.getPaginatedAssetTx param queryParam N w) = Err e) \/
   (exists k r, (k < Z.to_nat N)%nat /\
      nth_reply reply_assetTxs w k = Ok r /\
      fst (TypesAdapter.getPaginatedAssetTx param queryParam N w)
      = Ok (Obj r)))
  /\
  ((exists k e, (k < Z.to_nat N)%nat /\
      nth_reply reply_utxosByPaymentCred w k = Err e /\
      fst (TypesAdapter.getPaginatedUtxosByPaymentCred param queryParam N w)
      = Err e) \/
   (exists k r, (k < Z.to_nat N)%nat /\
      nth_reply reply_utxosByPaymentCred w k = Ok r /\
      fst (TypesAdapter.getPaginatedUtxosByPaymentCred param queryParam N w)
      = Ok (Obj r))).
Proof.
  intros HN. split.
  - exact (paginate_outcome atx_next_cursor reply_assetTxs CallAssetTxs
             param N queryParam w HN).
  - exact (paginate_outcome utxo_next_cursor reply_utxosByPaymentCred
             CallUtxosByPaymentCred param N queryParam w HN).
Qed.

Lemma pagination_result_is_a_reply_witness :
  let w := Examples.fresh (Examples.three_pages CUndefined CNull) in
  fst (TypesAdapter.getPaginatedAssetTx "nft" Examples.q0 2 w)
    <> Ok EmptyObject
  /\ fst (TypesAdapter.getPaginatedUtxosByPaymentCred "cred" Examples.q0 7 w)
    <> Ok EmptyObject.
Proof.
  intros w. split.
  - destruct (pagination_result_is_a_reply 2 "nft" Examples.q0 w) as [H _];
      [lia |].
    destruct H as [(k & e & _ & _ & ->) | (k & r & _ & _ & ->)]; discriminate.
  - destruct (pagination_result_is_a_reply 7 "cred" Examples.q0 w) as [_ H];
      [lia |].
    destruct H as [(k & e & _ & _ & ->) | (k & r & _ & _ & ->)]; discriminate.
Defined.


(** X4. When the [k]-th reply is the first to carry [null], every page
    from [k] on gives what page [k] gives: [getPoolHistory] returns the
    entries of that last reply and [getPools] the outcome of page [k],
    with the same requests sent. *)
Theorem page_beyond_last_repeats_last
    (X : Externals) (N : Z) (k : nat) (id : string)
    (count : option Z) (order : option Order) (w : World) :
  (1 <= k)%nat -> Z.of_nat k <= N ->
  (answered reply_assetTxs w k ->
   cursors_not_null atx_next_cursor reply_assetTxs w (k - 1) ->
   (exists r, nth_reply reply_assetTxs w (k - 1) = Ok r /\
              atx_next_cursor r = CNull) ->
   TypesAdapter.getPoolHistory X id (Some N) count order w
   = TypesAdapter.getPoolHistory X id (Some (Z.of_nat k)) count order w /\
   exists r,
     nth_reply reply_assetTxs w (k - 1) = Ok r /\
     fst (TypesAdapter.getPoolHistory X id (Some N) count order w)
     = Ok (map (fun tx => {| TypesAdapter.txHash := tx_hash tx;
                             TypesAdapter.time := Date_new (timestamp tx) |})
             (atx_data r)))
  /\
  (answered reply_utxosByPaymentCred w k ->
   cursors_not_null utxo_next_cursor reply_utxosByPaymentCred w (k - 1) ->
   (exists r, nth_reply reply_utxosByPaymentCred w (k - 1) = Ok r /\
              utxo_next_cursor r = CNull) ->
   TypesAdapter.getPools X N count order w
   = TypesAdapter.getPools X (Z.of_nat k) count order w).
Proof.
  intros Hk HN. split; intros Ha Hnn Hnull.
  - assert (E : forall p q,
              TypesAdapter.getPaginatedAssetTx p q N w
              = TypesAdapter.getPaginatedAssetTx p q (Z.of_nat k) w)
      by (intros p q;
          apply (paginate_page_irrelevant atx_next_cursor reply_assetTxs
                   CallAssetTxs p N (Z.of_nat k) k q w);
          try assumption; lia).
    split.
    + unfold TypesAdapter.getPoolHistory, bind. now rewrite E.
    + set (q := {| q_count := match count with Some c => c | None => 100 end;
                   q_order := match order with Some o => o | None => Desc end;
                   q_cursor := CUndefined |}).
      destruct (paginate_returns_nth atx_next_cursor reply_assetTxs
                  CallAssetTxs (POOL_NFT_POLICY_ID X ++ id) N k q w
                  Hk HN Ha Hnn (or_intror Hnull))
        as (r & w' & qs & Hr & Hrun & _).
      exists r. split; [exact Hr |].
      change (TypesAdapter.getPaginatedAssetTx (POOL_NFT_POLICY_ID X ++ id)
                q N w = (Ok (Obj r), w')) in Hrun.
      unfold TypesAdapter.getPoolHistory, bind.
      fold q. rewrite Hrun. reflexivity.
  - assert (E : forall p q,
              TypesAdapter.getPaginatedUtxosByPaymentCred p q N w
              = TypesAdapter.getPaginatedUtxosByPaymentCred p q (Z.of_nat k) w)
      by (intros p q;
          apply (paginate_page_irrelevant utxo_next_cursor
                   reply_utxosByPaymentCred CallUtxosByPaymentCred
                   p N (Z.of_nat k) k q w);
          try assumption; lia).
    unfold TypesAdapter.getPools, bind, lift.
    destruct (getPaymentCredFromScriptHash X (POOL_SCRIPT_HASH X));
      [| reflexivity].
    now rewrite E.
Qed.

Lemma page_beyond_last_repeats_last_witness :
  let w := Examples.fresh (Examples.three_pages CNull CNull) in
  TypesAdapter.getPoolHistory Examples.toy "706f6f6c" (Some 9) None None w
  = TypesAdapter.getPoolHistory Examples.toy "706f6f6c" (Some 2) None None w
  /\
  TypesAdapter.getPools Examples.toy 9 None None w
  = TypesAdapter.getPools Examples.toy 2 None None w.
Proof.
  intros w.
  destruct (page_beyond_last_repeats_last Examples.toy 9 2 "706f6f6c"
              None None w) as [Hh Hp]; [lia | lia |].
  split.
  - apply Hh.
    + intros [| [| k]] Hk; try lia; eexists; reflexivity.
    + intros [| k] r Hk Hr; try (cbn in Hk; lia); inversion Hr; discriminate.
    + eexists; split; reflexivity.
  - apply Hp.
    + intros [| [| k]] Hk; try lia; eexists; reflexivity.
    + intros [| k] r Hk Hr; try (cbn in Hk; lia); inversion Hr; discriminate.
    + eexists; split; reflexivity.
Defined.

(** ** Pool lookups *)



Lemma map_throwing_Forall2 {A B : Type} (f : A -> result B) (xs : list A) :
  forall ys, map_throwing f xs = Ok ys -> Forall2 (fun x y => f x = Ok y) xs ys.
Proof.
  induction xs as [| x xs IH]; cbn; intros ys H.
  - inversion H. constructor.
  - destruct (f x) as [y | e] eqn:Hx; cbn in H; [| discriminate].
    destruct (map_throwing f xs) as [ys' | e]; cbn in H; [| discriminate].
    inversion H; subst ys. constructor; [exact Hx | now apply IH].
Qed.

Lemma map_throwing_fails {A B : Type} (f : A -> result B) (xs : list A) x e :
  In x xs -> f x = Err e -> exists e', map_throwing f xs = Err e'.
Proof.
  induction xs as [| y xs IH]; cbn; [tauto |].
  intros [-> | Hin] Hx.
  - rewrite Hx. now exists e.
  - destruct (f y) as [b | e1]; cbn; [| now exists e1].
    destruct (IH Hin Hx) as [e' ->]. now exists e'.
Qed.

(** What [getPoolInTx] returns when it returns a pool. *)
Lemma getPoolInTx_returns (X : Externals) (txHash : string) (w : World)
    (pool : PoolState) (w' : World) :
  MaestroAdapter.getPoolInTx X txHash w = (Ok (Some pool), w') ->
  exists poolTx o,
    nth_reply reply_txInfo w 0 = Ok poolTx /\
    find_throwing (is_pool_output X) (outputs poolTx) = Ok (Some o) /\
    w' = sent w (CallTxInfo txHash) /\
    address pool = utxo_address o /\
    txIn pool = {| txIn_txHash := txHash; txIn_index := utxo_index o |} /\
    value pool = toValue (utxo_assets o) /\
    datum_hash o = Some (datumHash pool) /\
    datumHash pool <> EmptyString.
Proof.
  unfold MaestroAdapter.getPoolInTx, bind, lift, ret, Api.txInfo, Api.call.
  rewrite nth_reply_0.
  destruct (reply_txInfo (upstream w) (List.length (calls w)))
    as [poolTx | e]; [| discriminate].
  destruct (find_throwing (is_pool_output X) (outputs poolTx))
    as [[o |] | e] eqn:Hfind; try discriminate.
  destruct (checkValidPoolOutput X _ _ _) as [[] | e]; [| discriminate].
  destruct (invariant _ _) as [[] | e] eqn:Hinv; [| discriminate].
  unfold PoolState_new.
  destruct (PoolState_assets X _) as [[[a ra] [b rb]] | e];
    cbn; [| discriminate].
  intros H. inversion H; subst pool w'. cbn.
  apply invariant_ok in Hinv.
  exists poolTx, o. repeat split; try assumption; try reflexivity.
  unfold or_empty in *. destruct (datum_hash o); [reflexivity | now elim Hinv].
Qed.


(** X7. [getPoolById] asks for the one latest transaction of the pool
    NFT. Without any it returns [null] and sends nothing more; a pool it
    returns sits in that transaction, has a datum hash that is not empty
    and an address at the pool script, and two requests were sent. *)
Theorem getPoolById_latest_transaction
    (X : Externals) (id : string) (w : World) :
  let nft := (POOL_NFT_POLICY_ID X ++ id)%string in
  let q := {| q_count := 1; q_order := Desc; q_cursor := CUndefined |} in
  (forall nftTxs,
     nth_reply reply_assetTxs w 0 = Ok nftTxs -> atx_data nftTxs = [] ->
     MaestroAdapter.getPoolById X id w
     = (Ok None, sent w (CallAssetTxs nft q)))
  /\
  (forall pool w',
     MaestroAdapter.getPoolById X id w = (Ok (Some pool), w') ->
     exists nftTxs tx rest,
       nth_reply reply_assetTxs w 0 = Ok nftTxs /\
       atx_data nftTxs = tx :: rest /\
       txIn_txHash (txIn pool) = tx_hash tx /\
       datumHash pool <> EmptyString /\
       getScriptHashFromAddress X (address pool)
         = Ok (Some (POOL_SCRIPT_HASH X)) /\
       calls w'
       = (calls w ++ [CallAssetTxs nft q; CallTxInfo (tx_hash tx)])%list).
Proof.
  intros nft q.
  unfold MaestroAdapter.getPoolById, bind, Api.assetTxs, Api.call.
  fold nft q. rewrite nth_reply_0. split.
  - intros nftTxs -> ->. reflexivity.
  - intros pool w'.
    destruct (reply_assetTxs (upstream w) (List.length (calls w)))
      as [nftTxs | e]; [| discriminate].
    destruct (atx_data nftTxs) as [| tx rest] eqn:Hdata; [discriminate |].
    intros Hret.
    destruct (getPoolInTx_returns X _ _ _ _ Hret)
      as (poolTx & o & _ & Hfind & Hw' & Haddr & Htx & _ & _ & Hd).
    exists nftTxs, tx, rest.
    split; [reflexivity |]. split; [exact Hdata |].
    split; [now rewrite Htx |]. split; [exact Hd |].
    split.
    + rewrite Haddr. apply is_pool_output_true.
      now destruct (find_throwing_found _ _ _ Hfind).
    + subst w'. cbn. rewrite <- app_assoc. reflexivity.
Qed.

(** X5. The pools [getPools] returns are, in order, the outputs of one
    delivered page that pass [isValidPoolOutput]: each has the address,
    output reference, assets and datum hash of its output, and the datum
    hash is not empty. When an output that passes has no datum hash,
    [getPools] returns no list at all. *)
Theorem getPools_pools_validated
    (X : Externals) (page : Z) (count : option Z) (order : option Order)
    (w : World) :
  (forall pools w',
     TypesAdapter.getPools X page count order w = (Ok pools, w') ->
     exists k res,
       (k < Z.to_nat page)%nat /\
       nth_reply reply_utxosByPaymentCred w k = Ok res /\
       Forall2
         (fun utxo pool =>
            address pool = utxo_address utxo /\
            txIn pool = {| txIn_txHash := utxo_tx_hash utxo;
                           txIn_index := utxo_index utxo |} /\
            value pool = toValue (utxo_assets utxo) /\
            datum_hash utxo = Some (datumHash pool) /\
            datumHash pool <> EmptyString)
         (filter (fun utxo =>
                    isValidPoolOutput X (utxo_address utxo)
                      (toValue (utxo_assets utxo))
                      (or_null (datum_hash utxo)))
                 (utxo_data res))
         pools)
  /\
  (forall cred res w1 utxo,
     getPaymentCredFromScriptHash X (POOL_SCRIPT_HASH X) = Ok cred ->
     TypesAdapter.getPaginatedUtxosByPaymentCred cred
       {| q_count := match count with Some c => c | None => 100 end;
          q_order := match order with Some o => o | None => Asc end;
          q_cursor := CUndefined |} page w
     = (Ok (Obj res), w1) ->
     In utxo (utxo_data res) ->
     isValidPoolOutput X (utxo_address utxo) (toValue (utxo_assets utxo))
       (or_null (datum_hash utxo)) = true ->
     or_empty (datum_hash utxo) = EmptyString ->
     exists e, TypesAdapter.getPools X page count order w = (Err e, w1)).
Proof.
  unfold TypesAdapter.getPools, bind, lift.
  set (q := {| q_count := _; q_order := _; q_cursor := _ |}).
  split.
  - intros pools w'.
    destruct (getPaymentCredFromScriptHash X (POOL_SCRIPT_HASH X))
      as [cred | e]; [| discriminate].
    destruct (Z_le_gt_dec page 0) as [Hle | Hgt].
    { change (TypesAdapter.getPaginatedUtxosByPaymentCred cred q page w)
        with (paginate utxo_next_cursor
                (fun p q0 => Api.call reply_utxosByPaymentCred
                               (CallUtxosByPaymentCred p q0)) cred page q w).
      rewrite paginate_no_page by exact Hle. discriminate. }
    pose proof (paginate_outcome utxo_next_cursor reply_utxosByPaymentCred
                  CallUtxosByPaymentCred cred page q w ltac:(lia)) as Hout.
    cbn zeta in Hout.
    change (paginate utxo_next_cursor _ cred page q w)
      with (TypesAdapter.getPaginatedUtxosByPaymentCred cred q page w) in Hout.
    revert Hout.
    destruct (TypesAdapter.getPaginatedUtxosByPaymentCred cred q page w)
      as [[[| res] | e] w1]; intros Hout; try discriminate.
    destruct Hout as [(k & e & _ & _ & H) | (k & r & Hk & Hr & H)];
      [cbn in H; discriminate H |].
    cbn in H. inversion H; subst r.
    destruct (map_throwing _ _) as [ps | e] eqn:Hmap; [| discriminate].
    intros Hret. inversion Hret; subst pools w'.
    exists k, res. split; [exact Hk |]. split; [exact Hr |].
    apply map_throwing_Forall2 in Hmap.
    eapply Forall2_impl; [| exact Hmap].
    intros utxo pool Hpool. cbn beta in Hpool.
    destruct (invariant _ _) as [[] | e] eqn:Hinv; cbn in Hpool;
      [| discriminate].
    apply invariant_ok in Hinv.
    unfold PoolState_new in Hpool.
    destruct (PoolState_assets X _) as [[[a ra] [b rb]] | e];
      cbn in Hpool; [| discriminate].
    inversion Hpool; subst pool. cbn.
    repeat split; try assumption.
    unfold or_empty in *. destruct (datum_hash utxo);
      [reflexivity | now elim Hinv].
  - intros cred res w1 utxo -> Hpage Hin Hvalid Hempty.
    fold q in Hpage. rewrite Hpage.
    assert (Hf : In utxo
              (filter (fun utxo =>
                         isValidPoolOutput X (utxo_address utxo)
                           (toValue (utxo_assets utxo))
                           (or_null (datum_hash utxo)))
                      (utxo_data res)))
      by (apply filter_In; now split).
    match goal with
    | |- context [map_throwing ?f ?l] =>
        assert (Hfx : f utxo
                      = Err (InvariantFailed
                               ("expect pool to have datum hash, got "
                                  ++ EmptyString)))
          by (cbn beta; rewrite Hempty; reflexivity);
        destruct (map_throwing_fails f l utxo _ Hf Hfx) as [e' He']
    end.
    rewrite He'. now exists e'.
Qed.

(** X8. A rejection by the indexer comes out unchanged: of [txInfo] in
    [getPoolInTx] and in the second step of [getPoolById], of [assetTxs]
    in [getPoolById] and in both [getPoolHistory], of
    [utxosByPaymentCred] in [getPools]. *)
Theorem upstream_rejection_propagates
    (X : Externals) (txHash id : string) (count : option Z)
    (order : option Order) (w : World) (e : JsError) :
  (nth_reply reply_txInfo w 0 = Err e ->
   MaestroAdapter.getPoolInTx X txHash w
   = (Err e, sent w (CallTxInfo txHash)))
  /\
  (nth_reply reply_assetTxs w 0 = Err e ->
   fst (MaestroAdapter.getPoolById X id w) = Err e /\
   fst (MaestroAdapter.getPoolHistory X id count order w) = Err e /\
   forall page, 1 <= page ->
     fst (TypesAdapter.getPoolHistory X id (Some page) count order w) = Err e)
  /\
  (forall nftTxs tx rest,
     nth_reply reply_assetTxs w 0 = Ok nftTxs ->
     atx_data nftTxs = tx :: rest ->
     nth_reply reply_txInfo w 1 = Err e ->
     fst (MaestroAdapter.getPoolById X id w) = Err e)
  /\
  (forall cred page,
     1 <= page ->
     getPaymentCredFromScriptHash X (POOL_SCRIPT_HASH X) = Ok cred ->
     nth_reply reply_utxosByPaymentCred w 0 = Err e ->
     fst (TypesAdapter.getPools X page count order w) = Err e).
Proof.
  split; [| split; [| split]].
  - intros He. rewrite nth_reply_0 in He.
    unfold MaestroAdapter.getPoolInTx, bind, Api.txInfo, Api.call.
    now rewrite He.
  - intros He. split; [| split].
    + rewrite nth_reply_0 in He.
      unfold MaestroAdapter.getPoolById, bind, Api.assetTxs, Api.call.
      now rewrite He.
    + rewrite nth_reply_0 in He.
      unfold MaestroAdapter.getPoolHistory, bind, Api.assetTxs, Api.call.
      now rewrite He.
    + intros page Hpage.
      unfold TypesAdapter.getPoolHistory, bind.
      set (q := {| q_count := _; q_order := _; q_cursor := _ |}).
      destruct (paginate_rejected atx_next_cursor reply_assetTxs CallAssetTxs
                  (POOL_NFT_POLICY_ID X ++ id) page 1 q w e)
        as (w' & qs & Hrun & _); try assumption; try lia.
      * intros k Hk. cbn in Hk. lia.
      * intros k r Hk. cbn in Hk. lia.
      * change (TypesAdapter.getPaginatedAssetTx (POOL_NFT_POLICY_ID X ++ id)
                  q page w = (Err e, w')) in Hrun.
        now rewrite Hrun.
  - intros nftTxs tx rest Hr Hdata He.
    rewrite nth_reply_0 in Hr.
    unfold MaestroAdapter.getPoolById, bind, Api.assetTxs, Api.call.
    rewrite Hr, Hdata.
    unfold MaestroAdapter.getPoolInTx, bind, Api.txInfo, Api.call.
    rewrite length_calls_sent. unfold nth_reply in He.
    replace (List.length (calls w) + 1)%nat with (S (List.length (calls w)))
      in He by lia.
    cbn [upstream sent]. now rewrite He.
  - intros cred page Hpage Hcred He.
    unfold TypesAdapter.getPools, bind, lift. rewrite Hcred.
    set (q := {| q_count := _; q_order := _; q_cursor := _ |}).
    destruct (paginate_rejected utxo_next_cursor reply_utxosByPaymentCred
                CallUtxosByPaymentCred cred page 1 q w e)
      as (w' & qs & Hrun & _); try assumption; try lia.
    + intros k Hk. cbn in Hk. lia.
    + intros k r Hk. cbn in Hk. lia.
    + change (TypesAdapter.getPaginatedUtxosByPaymentCred cred q page w
              = (Err e, w')) in Hrun.
      now rewrite Hrun.
Qed.

(** ** Prices and decimals *)

Lemma units_comp (x y : Q) : (x == y)%Q -> Big.units x = Big.units y.
Proof.
  intros Hxy. unfold Big.units.
  assert (Hs : Z.sgn (Qnum x) = Z.sgn (Qnum y)).
  { destruct x as [nx dx], y as [ny dy]. unfold Qeq in Hxy. cbn in *.
    destruct nx, ny; cbn; try reflexivity; lia. }
  rewrite Hs. f_equal. apply Qfloor_comp. now rewrite Hxy.
Qed.

Lemma round_comp (x y : Q) : (x == y)%Q -> Big.round x = Big.round y.
Proof. intros Hxy. unfold Big.round. now rewrite (units_comp x y Hxy). Qed.

Lemma round_le (x y : Q) :
  (0 < x)%Q -> (x <= y)%Q -> (Big.round x <= Big.round y)%Q.
Proof.
  intros Hx Hxy. unfold Big.round.
  rewrite (units_pos x Hx), (units_pos y) by lra.
  pose proof scale_pos as HS.
  apply Qmult_le_compat_r; [| apply Qlt_le_weak, Qinv_lt_0_compat, HS].
  rewrite <- Zle_Qle. apply Qfloor_resp_le. nra.
Qed.

Lemma price_pair_mirror (rA rB dA dB : Z) (p q : Big.t) :
  price_pair rA rB dA dB = Ok (p, q) -> price_pair rB rA dB dA = Ok (q, p).
Proof.
  unfold price_pair.
  destruct (Big.pow (Big.of_Z 10) dA) as [tenA | e]; cbn; [| discriminate].
  destruct (Big.div (Big.of_Z rA) tenA) as [adjA | e]; cbn; [| discriminate].
  destruct (Big.pow (Big.of_Z 10) dB) as [tenB | e]; cbn; [| discriminate].
  destruct (Big.div (Big.of_Z rB) tenB) as [adjB | e]; cbn; [| discriminate].
  destruct (Big.div adjA adjB) as [pAB | e] eqn:HAB; cbn; [| discriminate].
  destruct (Big.div adjB adjA) as [pBA | e] eqn:HBA; cbn; [| discriminate].
  intros H. inversion H; subst p q. reflexivity.
Qed.

(** X10. Swapping the two sides of a pool swaps the two prices:
    [getPoolPrice] returns [[p, q]] for a pool and decimals exactly when
    it returns [[q, p]] for the pool and decimals with A and B exchanged. *)
Theorem getPoolPrice_mirrored
    (pool pool' : PoolState) (dA dB : Z) (w : World) (p q : Big.t) :
  reserveA pool' = reserveB pool -> reserveB pool' = reserveA pool ->
  (MaestroAdapter.getPoolPrice pool (Some dA) (Some dB) w = (Ok (p, q), w) <->
   MaestroAdapter.getPoolPrice pool' (Some dB) (Some dA) w = (Ok (q, p), w)).
Proof.
  intros HA HB. rewrite !getPoolPrice_supplied, HA, HB. split; intros H.
  - inversion H as [H1]. now rewrite (price_pair_mirror _ _ _ _ _ _ H1).
  - inversion H as [H1]. now rewrite (price_pair_mirror _ _ _ _ _ _ H1).
Qed.

(** X11. With decimals between 0 and 20, more of asset A at the same
    reserve of B never lowers the price A/B and never raises B/A. *)
Theorem getPoolPrice_monotone
    (pool pool' : PoolState) (dA dB : Z) (w : World) :
  0 < reserveA pool -> 0 < reserveB pool ->
  reserveA pool <= reserveA pool' -> reserveB pool' = reserveB pool ->
  0 <= dA <= 20 -> 0 <= dB <= 20 ->
  exists pAB pBA pAB' pBA',
    MaestroAdapter.getPoolPrice pool (Some dA) (Some dB) w
    = (Ok (pAB, pBA), w) /\
    MaestroAdapter.getPoolPrice pool' (Some dA) (Some dB) w
    = (Ok (pAB', pBA'), w) /\
    (pAB <= pAB')%Q /\ (pBA' <= pBA)%Q.
Proof.
  intros HA HB Hle HB' HdA HdB.
  assert (HA' : 0 < reserveA pool') by lia.
  rewrite !getPoolPrice_supplied, HB'.
  rewrite !price_pair_in_range by assumption.
  pose proof (exact_adjusted_pos _ dA HA) as Hx.
  pose proof (exact_adjusted_pos _ dA HA') as Hx'.
  pose proof (exact_adjusted_pos _ dB HB) as Hy.
  pose proof (round_exact_adjusted _ dA HA HdA) as Ex.
  pose proof (round_exact_adjusted _ dA HA' HdA) as Ex'.
  pose proof (round_exact_adjusted _ dB HB HdB) as Ey.
  assert (Hxx' : (exact_adjusted (reserveA pool) dA
                  <= exact_adjusted (reserveA pool') dA)%Q).
  { unfold exact_adjusted. pose proof (ten_power_pos dA) as Hp.
    unfold Big.of_Z in Hp. apply Qmult_le_compat_r.
    - now rewrite <- Zle_Qle.
    - apply Qlt_le_weak, Qinv_lt_0_compat, Hp. }
  set (x := exact_adjusted (reserveA pool) dA) in *.
  set (x' := exact_adjusted (reserveA pool') dA) in *.
  set (y := exact_adjusted (reserveB pool) dB) in *.
  eexists. eexists. eexists. eexists.
  split; [reflexivity |]. split; [reflexivity |].
  assert (Hiy : (0 < / y)%Q) by (now apply Qinv_lt_0_compat).
  assert (Hix : (0 < / x)%Q) by (now apply Qinv_lt_0_compat).
  assert (Hix' : (0 < / x')%Q) by (now apply Qinv_lt_0_compat).
  split.
  - apply round_le.
    + apply Qlt_shift_div_l; lra.
    + rewrite Ex, Ex', Ey. unfold Qdiv. apply Qmult_le_compat_r; lra.
  - apply round_le.
    + apply Qlt_shift_div_l; lra.
    + rewrite Ex, Ex', Ey. unfold Qdiv.
      assert (Hinv : (/ x' <= / x)%Q).
      { apply Qle_shift_inv_l; [exact Hx |].
        assert (E : (/ x' * x == x / x')%Q) by (field; lra).
        rewrite E. apply Qle_shift_div_r; lra. }
      rewrite (Qmult_comm y (/ x')), (Qmult_comm y (/ x)).
      apply Qmult_le_compat_r; lra.
Qed.

(** X12. With decimals between 0 and 20 the prices depend on the ratio
    of the adjusted reserves only: two pools with the same ratio get the
    same pair, digit for digit. *)
Theorem getPoolPrice_depends_on_ratio
    (pool pool' : PoolState) (dA dB dA' dB' : Z) (w : World) :
  0 < reserveA pool -> 0 < reserveB pool ->
  0 < reserveA pool' -> 0 < reserveB pool' ->
  0 <= dA <= 20 -> 0 <= dB <= 20 -> 0 <= dA' <= 20 -> 0 <= dB' <= 20 ->
  (exact_adjusted (reserveA pool) dA / exact_adjusted (reserveB pool) dB
   == exact_adjusted (reserveA pool') dA'
      / exact_adjusted (reserveB pool') dB')%Q ->
  MaestroAdapter.getPoolPrice pool (Some dA) (Some dB) w
  = MaestroAdapter.getPoolPrice pool' (Some dA') (Some dB') w.
Proof.
  intros HA HB HA' HB' HdA HdB HdA' HdB' Hratio.
  rewrite !getPoolPrice_supplied, !price_pair_in_range by assumption.
  pose proof (exact_adjusted_pos _ dA HA) as Hx.
  pose proof (exact_adjusted_pos _ dB HB) as Hy.
  pose proof (exact_adjusted_pos _ dA' HA') as Hx'.
  pose proof (exact_adjusted_pos _ dB' HB') as Hy'.
  pose proof (round_exact_adjusted _ dA HA HdA) as Ex.
  pose proof (round_exact_adjusted _ dB HB HdB) as Ey.
  pose proof (round_exact_adjusted _ dA' HA' HdA') as Ex'.
  pose proof (round_exact_adjusted _ dB' HB' HdB') as Ey'.
  set (x := exact_adjusted (reserveA pool) dA) in *.
  set (y := exact_adjusted (reserveB pool) dB) in *.
  set (x' := exact_adjusted (reserveA pool') dA') in *.
  set (y' := exact_adjusted (reserveB pool') dB') in *.
  assert (Hinv : (y / x == y' / x')%Q).
  { assert (E1 : (y / x == / (x / y))%Q) by (field; split; lra).
    assert (E2 : (y' / x' == / (x' / y'))%Q) by (field; split; lra).
    now rewrite E1, E2, Hratio. }
  assert (E1 : Big.round (Big.round x / Big.round y)
               = Big.round (Big.round x' / Big.round y'))
    by (apply round_comp; now rewrite Ex, Ey, Ex', Ey').
  assert (E2 : Big.round (Big.round y / Big.round x)
               = Big.round (Big.round y' / Big.round x'))
    by (apply round_comp; now rewrite Ex, Ey, Ex', Ey').
  now rewrite E1, E2.
Qed.

(** X13. A pool whose adjusted reserves are equal is priced at exactly 1
    in both directions. *)
Theorem getPoolPrice_balanced
    (pool : PoolState) (dA dB : Z) (w : World) :
  0 < reserveA pool -> 0 < reserveB pool ->
  0 <= dA <= 20 -> 0 <= dB <= 20 ->
  (exact_adjusted (reserveA pool) dA == exact_adjusted (reserveB pool) dB)%Q ->
  exists pAB pBA,
    MaestroAdapter.getPoolPrice pool (Some dA) (Some dB) w
    = (Ok (pAB, pBA), w) /\
    (pAB == 1)%Q /\ (pBA == 1)%Q.
Proof.
  intros HA HB HdA HdB Heq.
  rewrite getPoolPrice_supplied, price_pair_in_range by assumption.
  pose proof (exact_adjusted_pos _ dA HA) as Hx.
  pose proof (exact_adjusted_pos _ dB HB) as Hy.
  pose proof (round_exact_adjusted _ dA HA HdA) as Ex.
  pose proof (round_exact_adjusted _ dB HB HdB) as Ey.
  set (x := exact_adjusted (reserveA pool) dA) in *.
  set (y := exact_adjusted (reserveB pool) dB) in *.
  assert (E1 : Big.round (Big.round x / Big.round y) = Big.round 1).
  { apply round_comp. rewrite Ex, Ey, Heq. field. lra. }
  assert (E2 : Big.round (Big.round y / Big.round x) = Big.round 1).
  { apply round_comp. rewrite Ex, Ey, Heq. field. lra. }
  eexists. eexists. split; [reflexivity |].
  rewrite E1, E2. split; reflexivity.
Qed.

(** The adjusted reserve rounds to zero exactly below half a unit. *)
Lemma adjusted_zero_iff (r d : Z) :
  0 < r -> 0 <= d ->
  ((Big.round (exact_adjusted r d) == 0)%Q <-> 2 * r * 10 ^ 20 < 10 ^ d).
Proof.
  intros Hr Hd.
  assert (HT : (inject_Z 10 ^ d == inject_Z (10 ^ d))%Q)
    by (symmetry; apply Zpower_Qpower; lia).
  assert (HTpos : 0 < 10 ^ d) by (apply Z.pow_pos_nonneg; lia).
  assert (HTq : (0 < inject_Z (10 ^ d))%Q) by (now rewrite <- (Zlt_Qlt 0)).
  pose proof (exact_adjusted_pos r d Hr) as Hx.
  pose proof scale_pos as HS.
  assert (HxS : (exact_adjusted r d * inject_Z Big.scale
                 == inject_Z (r * 10 ^ 20) / inject_Z (10 ^ d))%Q).
  { unfold exact_adjusted. rewrite HT, inject_Z_mult.
    change Big.scale with (10 ^ 20). field. lra. }
  assert (Hlt : (exact_adjusted r d * inject_Z Big.scale + (1 # 2) < 1)%Q
                <-> 2 * r * 10 ^ 20 < 10 ^ d).
  { rewrite HxS.
    set (n := inject_Z (r * 10 ^ 20)) in *.
    set (t := inject_Z (10 ^ d)) in *.
    assert (Ez : (n / t * t == n)%Q) by (field; lra).
    assert (E2 : (inject_Z (2 * r * 10 ^ 20) == 2 * n)%Q).
    { unfold n. rewrite <- Z.mul_assoc, inject_Z_mult. reflexivity. }
    rewrite Zlt_Qlt. fold t. rewrite E2.
    set (z := (n / t)%Q) in *.
    split; intros H; nra. }
  rewrite <- Hlt.
  destruct (round_pos_bounds _ Hx) as [H1 H2].
  pose proof (units_nonneg (exact_adjusted r d) ltac:(lra)) as Hn.
  unfold Big.round. split.
  - intros H0.
    assert (Hu : Big.units (exact_adjusted r d) = 0).
    { assert (E : (inject_Z (Big.units (exact_adjusted r d)) == 0)%Q).
      { apply (Qmult_inj_r _ _ (/ inject_Z Big.scale)).
        - intros E. apply Qinv_lt_0_compat in HS. lra.
        - rewrite Qmult_0_l. exact H0. }
      destruct (Big.units (exact_adjusted r d)); [reflexivity | |];
        discriminate E. }
    rewrite Hu in H2. exact H2.
  - intros Hlt1.
    assert (Hu : Big.units (exact_adjusted r d) = 0).
    { rewrite (units_pos _ Hx).
      apply Qfloor_unique; change (inject_Z 0) with 0%Q; nra. }
    rewrite Hu. reflexivity.
Qed.

Lemma price_pair_nonneg_decimals (rA rB dA dB : Z) :
  0 <= dA <= Big.MAX_POWER -> 0 <= dB <= Big.MAX_POWER ->
  price_pair rA rB dA dB
  = if Big.is_zero (Big.round (exact_adjusted rB dB))
       || Big.is_zero (Big.round (exact_adjusted rA dA))
    then Err BigDivisionByZero
    else Ok (Big.round (Big.round (exact_adjusted rA dA)
                        / Big.round (exact_adjusted rB dB)),
             Big.round (Big.round (exact_adjusted rB dB)
                        / Big.round (exact_adjusted rA dA))).
Proof.
  intros HdA HdB. unfold price_pair.
  pose proof (ten_power_pos dA) as HpA. pose proof (ten_power_pos dB) as HpB.
  unfold Big.of_Z in HpA, HpB.
  rewrite !pow_ten_nonneg_exponent by assumption.
  cbn [result_bind].
  destruct (div_cases (Big.of_Z rA) (inject_Z 10 ^ dA)%Q) as [[_ H0] | [-> _]];
    [lra |].
  cbn [result_bind].
  destruct (div_cases (Big.of_Z rB) (inject_Z 10 ^ dB)%Q) as [[_ H0] | [-> _]];
    [lra |].
  cbn [result_bind].
  change (Big.of_Z rA / inject_Z 10 ^ dA)%Q with (exact_adjusted rA dA).
  change (Big.of_Z rB / inject_Z 10 ^ dB)%Q with (exact_adjusted rB dB).
  unfold Big.div.
  destruct (Big.is_zero (Big.round (exact_adjusted rB dB))); cbn;
    [reflexivity |].
  destruct (Big.is_zero (Big.round (exact_adjusted rA dA))); reflexivity.
Qed.

(** X14. For positive reserves and supplied decimals from 0 to [10^6],
    [getPoolPrice] returns a pair when each adjusted reserve is at least
    half a unit of the 20th decimal place, [10^d <= 2 * reserve * 10^20],
    and throws big.js' division by zero when one is not. *)
Theorem getPoolPrice_returns_iff
    (pool : PoolState) (dA dB : Z) (w : World) :
  0 < reserveA pool -> 0 < reserveB pool ->
  0 <= dA <= Big.MAX_POWER -> 0 <= dB <= Big.MAX_POWER ->
  (10 ^ dA <= 2 * reserveA pool * 10 ^ 20 /\
   10 ^ dB <= 2 * reserveB pool * 10 ^ 20 ->
   exists pAB pBA,
     MaestroAdapter.getPoolPrice pool (Some dA) (Some dB) w
     = (Ok (pAB, pBA), w))
  /\
  (2 * reserveA pool * 10 ^ 20 < 10 ^ dA \/
   2 * reserveB pool * 10 ^ 20 < 10 ^ dB ->
   MaestroAdapter.getPoolPrice pool (Some dA) (Some dB) w
   = (Err BigDivisionByZero, w)).
Proof.
  intros HA HB HdA HdB.
  rewrite getPoolPrice_supplied, price_pair_nonneg_decimals by assumption.
  pose proof (adjusted_zero_iff _ dA HA (proj1 HdA)) as HzA.
  pose proof (adjusted_zero_iff _ dB HB (proj1 HdB)) as HzB.
  rewrite <- is_zero_true in HzA, HzB.
  destruct (Big.is_zero (Big.round (exact_adjusted (reserveA pool) dA)));
    destruct (Big.is_zero (Big.round (exact_adjusted (reserveB pool) dB)));
    cbn [orb]; split; intros H; try reflexivity.
  - assert (2 * reserveA pool * 10 ^ 20 < 10 ^ dA) by now apply HzA. lia.
  - assert (2 * reserveA pool * 10 ^ 20 < 10 ^ dA) by now apply HzA. lia.
  - assert (2 * reserveB pool * 10 ^ 20 < 10 ^ dB) by now apply HzB. lia.
  - eexists. eexists. reflexivity.
  - destruct H as [H | H]; [apply HzA in H | apply HzB in H]; discriminate H.
Qed.

Lemma getAssetDecimals_world (asset : string) (w : World) :
  snd (MaestroAdapter.getAssetDecimals asset w)
  = if (asset =? "lovelace")%string then w else sent w (CallAssetInfo asset).
Proof.
  unfold MaestroAdapter.getAssetDecimals.
  destruct (asset =? "lovelace")%string; [reflexivity |].
  unfold try_catch, bind, Api.assetInfo, Api.call, ret, throw.
  destruct (reply_assetInfo (upstream w) (List.length (calls w)));
    [reflexivity |].
  destruct (isValidHex asset && (String.length asset <=? 122)%nat);
    reflexivity.
Qed.

Lemma getPoolPrice_steps (pool : PoolState) (decimalsA decimalsB : option Z)
    (w : World) :
  MaestroAdapter.getPoolPrice pool decimalsA decimalsB w
  = match (match decimalsA with
           | None => MaestroAdapter.getAssetDecimals (assetA pool)
           | Some d => ret d
           end) w with
    | (Err e, w1) => (Err e, w1)
    | (Ok dA, w1) =>
        match (match decimalsB with
               | None => MaestroAdapter.getAssetDecimals (assetB pool)
               | Some d => ret d
               end) w1 with
        | (Err e, w2) => (Err e, w2)
        | (Ok dB, w2) =>
            (price_pair (reserveA pool) (reserveB pool) dA dB, w2)
        end
    end.
Proof.
  unfold MaestroAdapter.getPoolPrice.
  set (resolveA := match decimalsA with
                   | None => MaestroAdapter.getAssetDecimals (assetA pool)
                   | Some d => ret d
                   end).
  set (resolveB := match decimalsB with
                   | None => MaestroAdapter.getAssetDecimals (assetB pool)
                   | Some d => ret d
                   end).
  unfold bind at 1. destruct (resolveA w) as [[dA | e] w1]; [| reflexivity].
  unfold bind at 1. destruct (resolveB w1) as [[dB | e] w2]; [| reflexivity].
  exact (getPoolPrice_supplied pool dA dB w2).
Qed.

Lemma resolve_world (asset : string) (supplied : option Z) (w : World) :
  snd ((match supplied with
        | None => MaestroAdapter.getAssetDecimals asset
        | Some d => ret d
        end) w)
  = {| upstream := upstream w;
       calls := (calls w ++ decimals_lookup asset supplied)%list |}.
Proof.
  destruct supplied as [d |]; cbn [decimals_lookup].
  - cbn. rewrite app_nil_r. now destruct w.
  - rewrite getAssetDecimals_world.
    destruct (asset =? "lovelace")%string; [| reflexivity].
    rewrite app_nil_r. now destruct w.
Qed.

(** X15. [getPoolPrice] sends nothing but lookups of decimals: none for
    decimals that are supplied and none for lovelace, first the one for
    asset A and then the one for asset B; it stops after the lookup for A
    only by throwing. *)
Theorem getPoolPrice_lookups
    (pool : PoolState) (decimalsA decimalsB : option Z) (w : World) :
  let out := MaestroAdapter.getPoolPrice pool decimalsA decimalsB w in
  upstream (snd out) = upstream w /\
  (calls (snd out)
   = (calls w ++ decimals_lookup (assetA pool) decimalsA
        ++ decimals_lookup (assetB pool) decimalsB)%list
   \/
   (calls (snd out) = (calls w ++ decimals_lookup (assetA pool) decimalsA)%list
    /\ exists e, fst out = Err e)).
Proof.
  cbn zeta. rewrite getPoolPrice_steps.
  pose proof (resolve_world (assetA pool) decimalsA w) as HA.
  destruct ((match decimalsA with
             | None => MaestroAdapter.getAssetDecimals (assetA pool)
             | Some d => ret d
             end) w) as [[dA | e] w1]; cbn [snd] in HA; subst w1.
  2: { split; [reflexivity |]. right. split; [reflexivity | now exists e]. }
  match goal with
  | |- context [(match decimalsB with
                 | None => _ | Some d => ret d end) ?w1] =>
      pose proof (resolve_world (assetB pool) decimalsB w1) as HB;
      destruct ((match decimalsB with
                 | None => MaestroAdapter.getAssetDecimals (assetB pool)
                 | Some d => ret d
                 end) w1) as [[dB | e] w2]; cbn [snd] in HB; subst w2
  end.
  - split; [reflexivity |]. left. cbn. now rewrite app_assoc.
  - split; [reflexivity |]. left. cbn. now rewrite app_assoc.
Qed.

Lemma match_star_to_end_append cls (a b : string) :
  match_star_to_end cls (a ++ b)
  = match_star_to_end cls a && match_star_to_end cls b.
Proof.
  induction a as [| c a IH]; cbn; [reflexivity |].
  now rewrite IH, andb_assoc.
Qed.

Lemma isValidHex_append (a b : string) :
  isValidHex a = true ->
  b = EmptyString \/ isValidHex b = true ->
  isValidHex (a ++ b) = true.
Proof.
  unfold isValidHex, match_plus_anchored.
  destruct a as [| c a]; [discriminate |]. cbn.
  intros Ha Hb. apply andb_true_iff in Ha as [Hc Ha].
  rewrite Hc, match_star_to_end_append, Ha. cbn.
  destruct Hb as [-> | Hb]; [reflexivity |].
  destruct b as [| d b]; [reflexivity | exact Hb].
Qed.

Lemma string_length_append (a b : string) :
  String.length (a ++ b) = (String.length a + String.length b)%nat.
Proof. induction a as [| c a IH]; cbn; [reflexivity | now rewrite IH]. Qed.

(** X16. For an asset unit made of a hexadecimal policy id followed by a
    hexadecimal name (or none), at most 122 characters in all, a failed
    lookup gives 0 decimals after one request; such a unit is never taken
    for lovelace. *)
Theorem getAssetDecimals_hex_unit
    (policy name : string) (w : World) (e : JsError) :
  isValidHex policy = true ->
  name = EmptyString \/ isValidHex name = true ->
  (String.length policy + String.length name <= 122)%nat ->
  nth_reply reply_assetInfo w 0 = Err e ->
  MaestroAdapter.getAssetDecimals (policy ++ name) w
  = (Ok 0, sent w (CallAssetInfo (policy ++ name))).
Proof.
  intros Hp Hn Hlen He.
  pose proof (isValidHex_append policy name Hp Hn) as Hhex.
  unfold MaestroAdapter.getAssetDecimals.
  destruct (String.eqb_spec (policy ++ name) "lovelace") as [E | _].
  { rewrite E in Hhex. discriminate Hhex. }
  unfold try_catch, bind, Api.assetInfo, Api.call, ret, throw.
  rewrite nth_reply_0 in He. rewrite He, Hhex, string_length_append.
  now rewrite (proj2 (Nat.leb_le _ _) Hlen).
Qed.

Lemma find_throwing_throws {A : Type} (p : A -> result bool)
    (before after : list A) (x : A) (e : JsError) :
  Forall (fun y => p y = Ok false) before ->
  p x = Err e ->
  find_throwing p (before ++ x :: after) = Err e.
Proof.
  intros Hb Hx. induction Hb as [| y before Hy _ IH]; cbn.
  - now rewrite Hx.
  - now rewrite Hy.
Qed.

(** X9. When an output that comes before any pool output has an address
    that the serialization library rejects, [getPoolInTx] throws the
    library's error, whatever outputs follow. *)
Theorem getPoolInTx_malformed_address
    (X : Externals) (txHash : string) (w : World) (poolTx : TxInfo)
    (before after : list Utxo) (o : Utxo) (e : JsError) :
  nth_reply reply_txInfo w 0 = Ok poolTx ->
  outputs poolTx = (before ++ o :: after)%list ->
  Forall (fun o' => is_pool_output X o' = Ok false) before ->
  Address_from_bech32 X (utxo_address o) = Err e ->
  MaestroAdapter.getPoolInTx X txHash w
  = (Err e, sent w (CallTxInfo txHash)).
Proof.
  intros Hr Hout Hb He. rewrite nth_reply_0 in Hr.
  unfold MaestroAdapter.getPoolInTx, bind, lift, Api.txInfo, Api.call.
  rewrite Hr, Hout.
  rewrite (find_throwing_throws _ before after o e Hb); [reflexivity |].
  unfold is_pool_output, getScriptHashFromAddress. now rewrite He.
Qed.

Lemma getPoolInTx_malformed_address_witness :
  MaestroAdapter.getPoolInTx Examples.toy "tx9"
    (Examples.fresh Examples.tx_with_malformed_address)
  = (Err (LibraryError "invalid bech32"),
     sent (Examples.fresh Examples.tx_with_malformed_address)
       (CallTxInfo "tx9")).
Proof.
  eapply (getPoolInTx_malformed_address Examples.toy "tx9" _ _
            [ {| utxo_address := "addr1user"; utxo_tx_hash := "tx9";
                 utxo_index := 0; utxo_assets := [];
                 utxo_datum := None |} ]).
  - reflexivity.
  - reflexivity.
  - repeat constructor.
  - reflexivity.
Defined.

(** ** Examples of the further properties *)


Lemma getPools_pools_validated_witness :
  let w :=
    Examples.fresh (Examples.pool_indexer (Some {| hash := "d0" |})) in
  (exists pool w',
     TypesAdapter.getPools Examples.toy 1 None None w = (Ok [pool], w') /\
     datumHash pool = "d0" /\ address pool = "addr1pool")
  /\
  (exists e w',
     TypesAdapter.getPools Examples.toy 1 None None
       (Examples.fresh (Examples.pool_indexer None))
     = (Err e, w')).
Proof.
  intros w. split.
  - destruct (getPools_pools_validated Examples.toy 1 None None w)
      as [Hret _].
    eexists. eexists. split; [reflexivity |].
    destruct (Hret _ _ eq_refl) as (k & res & _ & _ & Hall).
    split; reflexivity.
  - destruct (getPools_pools_validated Examples.toy 1 None None
                (Examples.fresh (Examples.pool_indexer None)))
      as [_ Hthrow].
    edestruct Hthrow as [e He].
    + reflexivity.
    + vm_compute. reflexivity.
    + left. reflexivity.
    + reflexivity.
    + reflexivity.
    + eexists. eexists. exact He.
Defined.


Lemma getPoolById_latest_transaction_witness :
  let w :=
    Examples.fresh (Examples.pool_indexer (Some {| hash := "d0" |})) in
  exists pool w',
    MaestroAdapter.getPoolById Examples.toy "706f6f6c" w
    = (Ok (Some pool), w') /\
    txIn_txHash (txIn pool) = "tx9" /\
    datumHash pool <> EmptyString /\
    List.length (calls w') = 2%nat.
Proof.
  intros w.
  destruct (getPoolById_latest_transaction Examples.toy "706f6f6c" w)
    as [_ Hret].
  eexists. eexists. split; [reflexivity |].
  destruct (Hret _ _ eq_refl)
    as (nftTxs & tx & rest & _ & _ & _ & Hd & _ & _).
  split; [reflexivity |]. split; [exact Hd | reflexivity].
Defined.

Lemma upstream_rejection_propagates_witness :
  let w :=
    Examples.fresh (Examples.asset_info_replies (Err (UpstreamError "404"))) in
  fst (MaestroAdapter.getPoolInTx Examples.toy "tx9" w)
  = Err (UpstreamError "connection refused")
  /\ fst (MaestroAdapter.getPoolById Examples.toy "706f6f6c" w)
     = Err (UpstreamError "connection refused")
  /\ fst (TypesAdapter.getPoolHistory Examples.toy "706f6f6c" (Some 4)
            None None w)
     = Err (UpstreamError "connection refused")
  /\ fst (TypesAdapter.getPools Examples.toy 4 None None w)
     = Err (UpstreamError "connection refused").
Proof.
  intros w.
  destruct (upstream_rejection_propagates Examples.toy "tx9" "706f6f6c"
              None None w (UpstreamError "connection refused"))
    as (Htx & Hassets & _ & Hpools).
  split; [now rewrite (Htx eq_refl) |].
  destruct (Hassets eq_refl) as (Hbyid & _ & Hhist).
  split; [exact Hbyid |].
  split; [apply Hhist; lia |].
  apply (Hpools "script1pool"); [lia | reflexivity | reflexivity].
Defined.

Lemma getPoolPrice_mirrored_witness :
  let w :=
    Examples.fresh (Examples.asset_info_replies (Err (UpstreamError "404"))) in
  exists p q,
    MaestroAdapter.getPoolPrice (Examples.pool_with 2000000 3) (Some 6)
      (Some 0) w = (Ok (p, q), w) /\
    MaestroAdapter.getPoolPrice (Examples.pool_with 3 2000000) (Some 0)
      (Some 6) w = (Ok (q, p), w).
Proof.
  intros w. eexists. eexists. split; [vm_compute; reflexivity |].
  apply (getPoolPrice_mirrored (Examples.pool_with 2000000 3)
           (Examples.pool_with 3 2000000) 6 0 w);
    [reflexivity | reflexivity |].
  vm_compute; reflexivity.
Defined.

Lemma getPoolPrice_monotone_witness :
  let w :=
    Examples.fresh (Examples.asset_info_replies (Err (UpstreamError "404"))) in
  exists pAB pBA pAB' pBA',
    MaestroAdapter.getPoolPrice (Examples.pool_with 1 3) (Some 0) (Some 0) w
    = (Ok (pAB, pBA), w) /\
    MaestroAdapter.getPoolPrice (Examples.pool_with 2 3) (Some 0) (Some 0) w
    = (Ok (pAB', pBA'), w) /\
    (pAB <= pAB')%Q /\ (pBA' <= pBA)%Q.
Proof.
  intros w.
  apply (getPoolPrice_monotone (Examples.pool_with 1 3)
           (Examples.pool_with 2 3) 0 0 w);
    try reflexivity; cbn; lia.
Defined.

Lemma getPoolPrice_depends_on_ratio_witness :
  let w :=
    Examples.fresh (Examples.asset_info_replies (Err (UpstreamError "404"))) in
  MaestroAdapter.getPoolPrice (Examples.pool_with 2000000 3) (Some 6)
    (Some 0) w
  = MaestroAdapter.getPoolPrice (Examples.pool_with 4000 6) (Some 3)
      (Some 0) w.
Proof.
  intros w.
  apply (getPoolPrice_depends_on_ratio (Examples.pool_with 2000000 3)
           (Examples.pool_with 4000 6) 6 0 3 0 w);
    try reflexivity; lia.
Defined.

Lemma getPoolPrice_balanced_witness :
  let w :=
    Examples.fresh (Examples.asset_info_replies (Err (UpstreamError "404"))) in
  exists pAB pBA,
    MaestroAdapter.getPoolPrice (Examples.pool_with 5000000 5) (Some 6)
      (Some 0) w = (Ok (pAB, pBA), w) /\
    (pAB == 1)%Q /\ (pBA == 1)%Q.
Proof.
  intros w.
  apply (getPoolPrice_balanced (Examples.pool_with 5000000 5) 6 0 w);
    try reflexivity; lia.
Defined.

Lemma getPoolPrice_returns_iff_witness :
  let w :=
    Examples.fresh (Examples.asset_info_replies (Err (UpstreamError "404"))) in
  (exists pAB pBA,
     MaestroAdapter.getPoolPrice (Examples.pool_with 5 1) (Some 21) (Some 0) w
     = (Ok (pAB, pBA), w))
  /\
  MaestroAdapter.getPoolPrice (Examples.pool_with 4 1) (Some 21) (Some 0) w
  = (Err BigDivisionByZero, w).
Proof.
  intros w. split.
  - destruct (getPoolPrice_returns_iff (Examples.pool_with 5 1) 21 0 w
                ltac:(reflexivity) ltac:(reflexivity)
                ltac:(unfold Big.MAX_POWER; lia)
                ltac:(unfold Big.MAX_POWER; lia))
      as [Hret _].
    apply Hret. split; apply Z.leb_le; vm_compute; reflexivity.
  - destruct (getPoolPrice_returns_iff (Examples.pool_with 4 1) 21 0 w
                ltac:(reflexivity) ltac:(reflexivity)
                ltac:(unfold Big.MAX_POWER; lia)
                ltac:(unfold Big.MAX_POWER; lia))
      as [_ Hthrow].
    apply Hthrow. left. apply Z.ltb_lt. vm_compute. reflexivity.
Defined.

Lemma getPoolPrice_lookups_witness :
  let w :=
    Examples.fresh
      (Examples.asset_info_replies (Ok {| registry_decimals := Some 0 |})) in
  calls (snd (MaestroAdapter.getPoolPrice (Examples.pool_with 2000000 3)
                None None w))
  = [CallAssetInfo "0be55d26746f6b"].
Proof.
  intros w.
  destruct (getPoolPrice_lookups (Examples.pool_with 2000000 3) None None w)
    as [_ [H | [_ [e He]]]]; [exact H |].
  vm_compute in He. discriminate He.
Defined.

Lemma getAssetDecimals_hex_unit_witness :
  let w :=
    Examples.fresh (Examples.asset_info_replies (Err (UpstreamError "404"))) in
  MaestroAdapter.getAssetDecimals "0be55d26746f6b" w
  = (Ok 0, sent w (CallAssetInfo "0be55d26746f6b")).
Proof.
  intros w.
  apply (getAssetDecimals_hex_unit "0be55d26" "746f6b" w
           (UpstreamError "404"));
    [reflexivity | right; reflexivity | cbn; lia | reflexivity].
Defined.
